(** * ctm::Factory and ctm::PerTypeStorage: a shallow embedding

    The development follows include/factory/PerTypeStorage.h and
    include/factory/Factory.h.  The process-wide storage map, the cells it
    owns and the state of the client program are threaded explicitly through
    a small state-and-outcome monad; the functions of PerTypeStorage, Factory,
    TypeIdGetter and FactoryMixin are one definition each, under their own
    names. *)

From Stdlib Require Import Ascii String.
From stdpp Require Import gmap strings list fin_maps sorting relations.

Open Scope string_scope.

(** ** C++ types that occur as template arguments *)

(** [typeid(T).name()] is applied by the storage to whole types, so types are
    kept as terms: client classes (interfaces and implementations) and the
    template instances the library builds from them. *)
Inductive CxxType : Type :=
| Class (name : string)                 (* a class of the client program *)
| Factory (Itf : CxxType)                 (* ctm::Factory<I> *)
| Registry (Itf : CxxType)              (* std::map<TypeId, std::function<std::shared_ptr<I>()>> *)
| FactoryMixin (T Itf : CxxType)        (* ctm::FactoryMixin<T, I> *)
| StdString.                            (* std::string, i.e. FactoryBase::TypeId *)

#[global] Instance CxxType_eq_dec : EqDecision CxxType.
Proof. solve_decision. Defined.

(** FactoryBase::TypeId *)
Abbreviation TypeId := string (only parsing).

(** A value of type [Factory<I>::Generator]: the function pointer
    [&FactoryMixin<T, I>::newInstance] that a Registrator passes, or any other
    callable of the client, named by a code label. *)
Inductive Generator : Type :=
| MixinNewInstance (T Itf : CxxType)
| Callable (code : nat).

#[global] Instance Generator_eq_dec : EqDecision Generator.
Proof. solve_decision. Defined.

(** The object a storage cell holds.  The library instantiates the storage at
    two value types only (a registry table and a TypeId); a cell of any other
    value type is kept as an opaque default-constructed object. *)
Inductive Cell : Type :=
| RegistryCell (Itf : CxxType) (r : gmap string Generator)
| TypeIdCell (id : string)
| ObjectCell (V : CxxType).

(** [new ValueType]: the default-constructed value. *)
Definition default_construct (V : CxxType) : Cell :=
  match V with
  | Registry Itf => RegistryCell Itf ∅
  | StdString => TypeIdCell ""
  | _ => ObjectCell V
  end.

(** std::shared_ptr to an instance: null, or the address of a live object. *)
Abbreviation Ptr := (option nat) (only parsing).

(** What client code (constructors, generators, typeId overriders) can do as
    far as the library sees it: return or raise. *)
Inductive ClientResult (A : Type) : Type :=
| Returned (a : A)
| Raised (code : nat).
Arguments Returned {A} a.
Arguments Raised {A} code.

(** Exceptions by origin: the std::runtime_error of Factory::newInstance, or
    whatever client code raised. *)
Inductive Exn : Type :=
| RuntimeError (what : string)
| ClientExn (code : nat).

(** How a call ends: normally, by an exception, in abort() after a failed
    assertion, or in undefined behaviour (a cell used at a type it was not
    created with, a dangling pointer). *)
Inductive Outcome (A : Type) : Type :=
| Ret (a : A)
| Throw (e : Exn)
| Abort
| Undefined.
Arguments Ret {A} a.
Arguments Throw {A} e.
Arguments Abort {A}.
Arguments Undefined {A}.

(** The final overrider of [TypeIdGetter<I>::typeId] in a class: the one
    FactoryMixin<T, I> provides, or one written by the client. *)
Inductive Overrider : Type :=
| ByMixin (T : CxxType)
| ByClient (code : nat).

(** ** Program state *)

(** The client side, over a state [W] of the client program that the library
    never inspects: the instances created so far (address = position, value =
    dynamic type) and the rest. *)
Record Client (W : Type) : Type := MkClient {
  objects : list CxxType;
  world : W
}.
Arguments MkClient {W} _ _.
Arguments objects {W} _.
Arguments world {W} _.

Record State (W : Type) : Type := MkState {
  m_data : option (gmap string nat);   (* PerTypeStorage::m_data, null at start *)
  cells : list Cell;                   (* objects created by [new ValueType] *)
  client : Client W
}.
Arguments MkState {W} _ _ _.
Arguments m_data {W} _.
Arguments cells {W} _.
Arguments client {W} _.

(** What a single storage transition does. *)
Inductive Label : Type :=
| LMap                                                   (* data() allocates the map *)
| LCell (key : string) (V : CxxType)                     (* a cell is created under [key] *)
| LTable (key : string) (Itf : CxxType) (id : string) (g : Generator)
                                                         (* r[typeId] = generator *)
| LString (key : string) (id : string)                   (* value<...>() = typeId *)
| LClient.                                               (* client code ran *)

(** ** The example program (factory_example/main.cpp) *)

(** A name mangling in the style of the Itanium ABI; class names are quoted
    character by character, so that every name reads back in one way. *)
Fixpoint quote (n : string) : string :=
  match n with
  | EmptyString => ";"
  | String c n' => String "."%char (String c (quote n'))
  end.

Fixpoint mangle (t : CxxType) : string :=
  match t with
  | Class n => "C" +:+ quote n
  | Factory i => "F" +:+ mangle i
  | Registry i => "R" +:+ mangle i
  | FactoryMixin t i => "M" +:+ mangle t +:+ mangle i
  | StdString => "S"
  end.

(** Type names in the style of g++ for a program whose client classes are
    all called [I] and are declared in anonymous namespaces, one in each
    translation unit: typeid gives every one of them the same name, and so
    the same names to the templates instantiated at them. *)
Fixpoint anonymous_names (t : CxxType) : string :=
  match t with
  | Class _ => "N12_GLOBAL__N_11IE"
  | Factory i => "N3ctm7FactoryI" +:+ anonymous_names i +:+ "EE"
  | Registry i =>
      "St3mapISsSt8functionIFSt10shared_ptrI" +:+ anonymous_names i +:+ "EvEEE"
  | FactoryMixin t i =>
      "N3ctm12FactoryMixinI" +:+ anonymous_names t +:+ anonymous_names i +:+ "EE"
  | StdString => "Ss"
  end.

(** Constructors of the example classes write a line to std::cout. *)
Definition example_construct (T : CxxType) (cout : list string)
  : ClientResult unit * list string :=
  match T with
  | Class n => (Returned tt, (cout ++ [n +:+ "::" +:+ n +:+ "()"])%list)
  | _ => (Returned tt, cout)
  end.

(** The example stores no callable of its own and overrides no typeId(). *)
Definition example_callable (code : nat) (c : Client (list string))
  : ClientResult (option nat) * Client (list string) := (Returned None, c).

Definition example_client_typeId (code : nat) (c : Client (list string))
  : ClientResult string * Client (list string) := (Returned "", c).

(** [class A : public Interface, public ctm::FactoryMixin<A, Interface>], and
    the same for B. *)
Definition example_final_overrider (D Itf : CxxType) : option Overrider :=
  if decide (Itf = Class "Interface") then
    if decide (D = Class "A") then Some (ByMixin (Class "A"))
    else if decide (D = Class "B") then Some (ByMixin (Class "B"))
    else None
  else None.

(** [CTM_DECL_IMPLEMENTATION_TRAITS(A, "A")] and the same for B, as a client
    that registers through ImplementationRegistrator would write them. *)
Definition example_traits (Impl : CxxType) : string :=
  match Impl with
  | Class n => n
  | _ => ""
  end.

Section Program.

(** typeid(T).name(): implementation-defined, supplied by the compiler. *)
Variable type_name : CxxType → string.

(** Whether the translation unit is compiled with NDEBUG, which turns
    [assert] into a no-op. *)
Variable NDEBUG : bool.

(** State of the client program that the library never inspects. *)
Variable W : Type.

Local Abbreviation Client := (Client W).
Local Abbreviation State := (State W).

(** Default constructor of a client class. *)
Variable construct : CxxType → W → ClientResult unit * W.

(** Body of a client callable stored in a std::function. *)
Variable callable : nat → Client → ClientResult Ptr * Client.

(** Body of a client-written override of typeId(). *)
Variable client_typeId : nat → Client → ClientResult TypeId * Client.

(** Class hierarchy as dynamic_cast and virtual dispatch see it:
    [final_overrider D I] is [None] when class [D] has no
    [TypeIdGetter<I>] base to cast to, and otherwise names the final
    overrider of [typeId()] in [D]. *)
Variable final_overrider : CxxType → CxxType → option Overrider.

Definition set_m_data (d : option (gmap string nat)) (s : State) : State :=
  MkState d (cells s) (client s).
Definition set_cells (h : list Cell) (s : State) : State :=
  MkState (m_data s) h (client s).
Definition set_client (c : Client) (s : State) : State :=
  MkState (m_data s) (cells s) c.

(** ** The monad *)

Definition M (A : Type) : Type := State → Outcome A * State.

Definition ret {A} (a : A) : M A := λ s, (Ret a, s).

Definition bind {A B} (m : M A) (k : A → M B) : M B :=
  λ s, match m s with
       | (Ret a, s') => k a s'
       | (Throw e, s') => (Throw e, s')
       | (Abort, s') => (Abort, s')
       | (Undefined, s') => (Undefined, s')
       end.

Definition throw {A} (e : Exn) : M A := λ s, (Throw e, s).

Notation "'let*' x := m 'in' k" := (bind m (λ x, k))
  (at level 10, x name, m at level 200, k at level 200).

(** [assert(b)] of <cassert>. *)
Definition assert (b : bool) : M unit :=
  λ s, if NDEBUG then (Ret tt, s) else if b then (Ret tt, s) else (Abort, s).

(** Running client code from inside the library. *)
Definition run_client {A} (f : Client → ClientResult A * Client) : M A :=
  λ s, match f (client s) with
       | (Returned a, c) => (Ret a, set_client c s)
       | (Raised e, c) => (Throw (ClientExn e), set_client c s)
       end.

(** ** PerTypeStorage.h *)

(** PerTypeStorage::data(): allocates the map on first use. *)
Definition data : M (gmap string nat) :=
  λ s, match m_data s with
       | Some d => (Ret d, s)
       | None => (Ret ∅, set_m_data (Some ∅) s)
       end.

(** [new ValueType]: a cell is allocated and holds the default value.  Of a
    value type other than the library's two, the cell is kept opaque and its
    default constructor, which is client code, is not run. *)
Definition new (V : CxxType) : M nat :=
  λ s, (Ret (length (cells s)), set_cells (cells s ++ [default_construct V]) s).

(** [d[key] = result] on the map [data()] refers to. *)
Definition data_assign (key : string) (p : nat) : M unit :=
  λ s, (Ret tt, set_m_data (insert key p <$> m_data s) s).

(** The private overload [value<ValueType>(key)]; the reference returned is
    the address of the cell. *)
Definition value_key (V : CxxType) (key : string) : M nat :=
  let* d := data in
  match d !! key with
  | None =>
      let* result := new V in
      let* _ := data_assign key result in
      ret result
  | Some p => ret p
  end.

(** The key built in [value<ClassType, ValueType>()]. *)
Definition storage_key (C V : CxxType) : string :=
  type_name C +:+ " / " +:+ type_name V.

(** PerTypeStorage::value<ClassType, ValueType>() *)
Definition value (C V : CxxType) : M nat :=
  value_key V (storage_key C V).

(** Using the reference as a [Registry&] of interface [Itf]: the std::map
    behind it. *)
Definition table_at (Itf : CxxType) (p : nat) : M (gmap string Generator) :=
  λ s, match cells s !! p with
       | Some (RegistryCell J t) =>
           if decide (J = Itf) then (Ret t, s) else (Undefined, s)
       | _ => (Undefined, s)
       end.

(** [r[typeId] = generator] through a [Registry&]. *)
Definition table_assign (Itf : CxxType) (p : nat) (typeId : TypeId) (g : Generator)
  : M unit :=
  λ s, match cells s !! p with
       | Some (RegistryCell J t) =>
           if decide (J = Itf)
           then (Ret tt, set_cells (<[p := RegistryCell J (<[typeId := g]> t)]> (cells s)) s)
           else (Undefined, s)
       | _ => (Undefined, s)
       end.

(** Using the reference as a [TypeId&]: the std::string behind it. *)
Definition string_at (p : nat) : M TypeId :=
  λ s, match cells s !! p with
       | Some (TypeIdCell id) => (Ret id, s)
       | _ => (Undefined, s)
       end.

(** [ref = typeId] through a [TypeId&]. *)
Definition string_assign (p : nat) (typeId : TypeId) : M unit :=
  λ s, match cells s !! p with
       | Some (TypeIdCell _) =>
           (Ret tt, set_cells (<[p := TypeIdCell typeId]> (cells s)) s)
       | _ => (Undefined, s)
       end.

(** ** Factory.h *)

(** std::make_shared<Type>(): runs the default constructor of [Type].  The
    release of an instance by its last shared_ptr is outside the model, so
    an address is never given out again. *)
Definition make_shared (T : CxxType) : M Ptr :=
  λ s, match construct T (world (client s)) with
       | (Returned _, w) =>
           (Ret (Some (length (objects (client s)))),
            set_client (MkClient (objects (client s) ++ [T]) w) s)
       | (Raised e, w) =>
           (Throw (ClientExn e), set_client (MkClient (objects (client s)) w) s)
       end.

(** FactoryMixin<Type, Interface>::newInstance() *)
Definition FactoryMixin_newInstance (T Itf : CxxType) : M Ptr :=
  make_shared T.

(** Calling a stored std::function: [it->second()]. *)
Definition invoke (g : Generator) : M Ptr :=
  match g with
  | MixinNewInstance T Itf => FactoryMixin_newInstance T Itf
  | Callable code => run_client (callable code)
  end.

(** Factory<Interface>::registry() *)
Definition registry (Itf : CxxType) : M nat :=
  value (Factory Itf) (Registry Itf).

(** Factory<Interface>::registerType() *)
Definition registerType (Itf : CxxType) (typeId : TypeId) (generator : Generator)
  : M unit :=
  let* r := registry Itf in
  let* t := table_at Itf r in
  let* _ := assert (bool_decide (t !! typeId = None)) in
  table_assign Itf r typeId generator.

(** Factory<Interface>::newInstance() *)
Definition newInstance (Itf : CxxType) (typeId : TypeId) : M Ptr :=
  let* r := registry Itf in
  let* t := table_at Itf r in
  match t !! typeId with
  | None =>
      throw (RuntimeError ("Failed to find type '" +:+ typeId +:+ "' in registry"))
  | Some g => invoke g
  end.

(** Keys of a std::map<std::string, _> in iteration order: ascending by
    std::less<std::string>. *)
Definition keys_in_order (t : gmap string Generator) : list string :=
  merge_sort (λ a b : string, String.leb a b) (map_to_list t).*1.

(** Factory<Interface>::registeredTypes() *)
Definition registeredTypes (Itf : CxxType) : M (list TypeId) :=
  let* r := registry Itf in
  let* t := table_at Itf r in
  ret (keys_in_order t).

(** Factory<Interface>::isTypeRegistered() *)
Definition isTypeRegistered (Itf : CxxType) (typeId : TypeId) : M bool :=
  let* r := registry Itf in
  let* t := table_at Itf r in
  ret (bool_decide (is_Some (t !! typeId))).

(** FactoryMixin<Type, Interface>::staticTypeId() *)
Definition staticTypeId (T Itf : CxxType) : M TypeId :=
  let* p := value (FactoryMixin T Itf) StdString in
  string_at p.

(** FactoryMixin<Type, Interface>::typeId() *)
Definition FactoryMixin_typeId (T Itf : CxxType) : M TypeId :=
  staticTypeId T Itf.

(** FactoryMixin<Type, Interface>::Registrator::Registrator() *)
Definition Registrator (T Itf : CxxType) (typeId : TypeId) : M unit :=
  let* _ := registerType Itf typeId (MixinNewInstance T Itf) in
  let* p := value (FactoryMixin T Itf) StdString in
  string_assign p typeId.

(** The virtual call [p->typeId()] once the final overrider is known. *)
Definition virtual_typeId (Itf : CxxType) (f : Overrider) : M TypeId :=
  match f with
  | ByMixin T => FactoryMixin_typeId T Itf
  | ByClient code => run_client (client_typeId code)
  end.

(** Dynamic type of the object a pointer refers to. *)
Definition dynamic_type (a : nat) : M CxxType :=
  λ s, match objects (client s) !! a with
       | Some D => (Ret D, s)
       | None => (Undefined, s)
       end.

(** TypeIdGetter<Interface>::typeId( const std::shared_ptr<T>& o ) *)
Definition TypeIdGetter_typeId (Itf : CxxType) (o : Ptr) : M TypeId :=
  match o with
  | None => ret ""
  | Some a =>
      let* D := dynamic_type a in
      match final_overrider D Itf with
      | None => ret ""
      | Some f => virtual_typeId Itf f
      end
  end.

(** ** Programs over the public interface *)

Inductive Op : Type :=
| OValue (C V : CxxType)
| ORegisterType (Itf : CxxType) (typeId : string) (generator : Generator)
| ONewInstance (Itf : CxxType) (typeId : string)
| ORegisteredTypes (Itf : CxxType)
| OIsTypeRegistered (Itf : CxxType) (typeId : string)
| ORegistrator (T Itf : CxxType) (typeId : string)
| OStaticTypeId (T Itf : CxxType)
| OTypeId (Itf : CxxType) (o : option nat).

Definition discard {A} (m : M A) : M unit := let* _ := m in ret tt.

Definition step (op : Op) : M unit :=
  match op with
  | OValue C V => discard (value C V)
  | ORegisterType Itf typeId g => registerType Itf typeId g
  | ONewInstance Itf typeId => discard (newInstance Itf typeId)
  | ORegisteredTypes Itf => discard (registeredTypes Itf)
  | OIsTypeRegistered Itf typeId => discard (isTypeRegistered Itf typeId)
  | ORegistrator T Itf typeId => Registrator T Itf typeId
  | OStaticTypeId T Itf => discard (staticTypeId T Itf)
  | OTypeId Itf o => discard (TypeIdGetter_typeId Itf o)
  end.

(** A client running the calls one after the other and catching what they
    throw; abort() and undefined behaviour end the run. *)
Fixpoint run (ops : list Op) : M unit :=
  match ops with
  | [] => ret tt
  | op :: rest =>
      λ s, match step op s with
           | (Ret _, s') | (Throw _, s') => run rest s'
           | (Abort, s') => (Abort, s')
           | (Undefined, s') => (Undefined, s')
           end
  end.

(** Program start: [m_data] is a null pointer, nothing is allocated. *)
Definition init (w : W) : State := MkState None [] (MkClient [] w).

(** ** Observations on a state *)

(** Address the storage map holds for a key. *)
Definition lookup_key (key : string) (s : State) : option nat :=
  m_data s ≫= λ d, d !! key.

(** The cell registered under a key. *)
Definition cell_at (key : string) (s : State) : option Cell :=
  lookup_key key s ≫= λ p, cells s !! p.

(** Address and cell of the pair (C, V). *)
Definition cell_addr (C V : CxxType) (s : State) : option nat :=
  lookup_key (storage_key C V) s.

Definition cell_of (C V : CxxType) (s : State) : option Cell :=
  cell_at (storage_key C V) s.

(** The registry table of an interface (empty while its cell is absent). *)
Definition table (Itf : CxxType) (s : State) : gmap string Generator :=
  match cell_of (Factory Itf) (Registry Itf) s with
  | Some (RegistryCell J t) => if decide (J = Itf) then t else ∅
  | _ => ∅
  end.

(** The identifier recorded for an implementation (none while absent). *)
Definition recorded_id (T Itf : CxxType) (s : State) : option string :=
  match cell_of (FactoryMixin T Itf) StdString s with
  | Some (TypeIdCell id) => Some id
  | _ => None
  end.

(** The registry cell of an interface is absent, or is a table of that
    interface. *)
Definition registry_ok (Itf : CxxType) (s : State) : Prop :=
  match cell_addr (Factory Itf) (Registry Itf) s with
  | None => True
  | Some p => ∃ t, cells s !! p = Some (RegistryCell Itf t)
  end.

(** The TypeId cell of an implementation is absent, or is a string. *)
Definition recorded_ok (T Itf : CxxType) (s : State) : Prop :=
  match cell_addr (FactoryMixin T Itf) StdString s with
  | None => True
  | Some p => ∃ id, cells s !! p = Some (TypeIdCell id)
  end.

(** Every address in the storage map is that of an allocated cell, and no
    two keys share a cell. *)
Definition wf (s : State) : Prop :=
  (∀ k p, lookup_key k s = Some p → p < length (cells s)) ∧
  (∀ k k' p, lookup_key k s = Some p → lookup_key k' s = Some p → k = k').

(** ** Storage transitions *)

Inductive update : Label → State → State → Prop :=
| up_map s :
    m_data s = None →
    update LMap s (set_m_data (Some ∅) s)
| up_cell s d key V :
    m_data s = Some d → d !! key = None →
    update (LCell key V) s
      (MkState (Some (<[key := length (cells s)]> d))
               (cells s ++ [default_construct V]) (client s))
| up_table s key p Itf t id g :
    lookup_key key s = Some p →
    cells s !! p = Some (RegistryCell Itf t) →
    update (LTable key Itf id g) s
      (set_cells (<[p := RegistryCell Itf (<[id := g]> t)]> (cells s)) s)
| up_string s key p old id :
    lookup_key key s = Some p →
    cells s !! p = Some (TypeIdCell old) →
    update (LString key id) s
      (set_cells (<[p := TypeIdCell id]> (cells s)) s)
| up_client s c :
    update LClient s (set_client c s).

(** One transition with a label in [P], and any number of them. *)
Definition moves (P : Label → Prop) (s s' : State) : Prop :=
  ∃ l, P l ∧ update l s s'.

Definition updates (P : Label → Prop) : State → State → Prop :=
  rtc (moves P).

(** The transitions an operation can take. *)
Definition allowed (op : Op) (l : Label) : Prop :=
  match l with
  | LMap => True
  | LCell key V => ∃ C, key = storage_key C V
  | LTable key Itf id g =>
      key = storage_key (Factory Itf) (Registry Itf) ∧
      (op = ORegisterType Itf id g ∨
       ∃ T, op = ORegistrator T Itf id ∧ g = MixinNewInstance T Itf)
  | LString key id =>
      ∃ T Itf, key = storage_key (FactoryMixin T Itf) StdString ∧
               op = ORegistrator T Itf id
  | LClient => True
  end.

(** A cell is an object of value type [V]. *)
Definition is_a (V : CxxType) (c : Cell) : Prop :=
  match c with
  | RegistryCell J _ => V = Registry J
  | TypeIdCell _ => V = StdString
  | ObjectCell V' => V = V' ∧ default_construct V' = ObjectCell V'
  end.

(** Every cell is of the value type of the pair it is registered for. *)
Definition typed (s : State) : Prop :=
  ∀ C V c, cell_of C V s = Some c → is_a V c.

(** What one transition does to the cell registered under a key. *)
Inductive change : Label → string → option Cell → option Cell → Prop :=
| ch_same l k c :
    change l k c c
| ch_cell k V :
    change (LCell k V) k None (Some (default_construct V))
| ch_table k Itf id g t :
    change (LTable k Itf id g) k
      (Some (RegistryCell Itf t)) (Some (RegistryCell Itf (<[id := g]> t)))
| ch_string k id old :
    change (LString k id) k (Some (TypeIdCell old)) (Some (TypeIdCell id)).

(** What a round trip through identifier [X] rests on: [X] maps to the
    generator of [T] in the table of the interface, and [X] is the
    identifier recorded for [T]. *)
Definition registered_as (T Itf : CxxType) (X : string) (s : State) : Prop :=
  table Itf s !! X = Some (MixinNewInstance T Itf) ∧
  recorded_id T Itf s = Some X.

(** The claim of deterministic rejection, for one call: the call does not
    return normally and the identifier keeps the generator it had. *)
Definition rejects_duplicate (Itf : CxxType) (typeId : string) (g : Generator)
    (s : State) : Prop :=
  fst (registerType Itf typeId g s) ≠ Ret tt ∧
  table Itf (snd (registerType Itf typeId g s)) !! typeId = table Itf s !! typeId.

(** ** The rest of Factory.h *)

(** ImplementationTypeTraits<Implementation>::typeId(), as the
    specializations written with CTM_DECL_IMPLEMENTATION_TRAITS define it. *)
Variable ImplementationTypeTraits_typeId : CxxType → TypeId.

(** ImplementationRegistrator<Implementation>::ImplementationRegistrator():
    the base class [Implementation::Registrator] is the Registrator of the
    FactoryMixin<T, Itf> that [Implementation] inherits. *)
Definition ImplementationRegistrator (Impl T Itf : CxxType) : M unit :=
  Registrator T Itf (ImplementationTypeTraits_typeId Impl).

(** The calls that reach client code: a generator, a typeId() override, or,
    in [new ValueType], the default constructor of a value type that is not
    one of the library's two (a registry table, a TypeId). *)
Definition runs_client_code (op : Op) : Prop :=
  match op with
  | ONewInstance _ _ | OTypeId _ _ => True
  | OValue _ (Registry _) | OValue _ StdString => False
  | OValue _ _ => True
  | _ => False
  end.

(** The calls that are handed a pointer by the client. *)
Definition passes_pointer (op : Op) : Prop :=
  match op with
  | OTypeId _ (Some _) => True
  | _ => False
  end.

(** A call ended within defined behaviour, and in abort() only where
    assertions are compiled in. *)
Definition ends_defined {A} (o : Outcome A) : Prop :=
  match o with
  | Ret _ | Throw _ => True
  | Abort => NDEBUG = false
  | Undefined => False
  end.

(** ** PerTypeStorage::value, case by case *)

Lemma value_unfold C V s :
  value C V s =
  match cell_addr C V s with
  | Some p => (Ret p, s)
  | None =>
      (Ret (length (cells s)),
       MkState (Some (<[storage_key C V := length (cells s)]> (default ∅ (m_data s))))
               (cells s ++ [default_construct V]) (client s))
  end.
Proof.
  unfold value, value_key, cell_addr, lookup_key, bind, data, new, data_assign, ret.
  destruct s as [[d|] h c]; simpl.
  - destruct (d !! storage_key C V); reflexivity.
  - rewrite lookup_empty. reflexivity.
Qed.

Lemma value_present C V s p :
  cell_addr C V s = Some p → value C V s = (Ret p, s).
Proof. intros H. rewrite value_unfold, H. reflexivity. Qed.

Lemma value_returns C V s :
  ∃ p, fst (value C V s) = Ret p ∧ cell_addr C V (snd (value C V s)) = Some p.
Proof.
  rewrite value_unfold. destruct (cell_addr C V s) as [p|] eqn:H; simpl.
  - eauto.
  - exists (length (cells s)). split; [reflexivity|].
    unfold cell_addr, lookup_key. simpl. apply lookup_insert_eq.
Qed.

(** ** Every operation is a sequence of storage transitions *)

Definition traces (P : Label → Prop) {A} (m : M A) : Prop :=
  ∀ s, updates P s (snd (m s)).

Lemma updates_mono (P Q : Label → Prop) s s' :
  (∀ l, P l → Q l) → updates P s s' → updates Q s s'.
Proof.
  intros HPQ. apply rtc_subrel. intros x y (l & Hl & Hu). exists l; auto.
Qed.

Lemma traces_ret P {A} (a : A) : traces P (ret a).
Proof. intros s. apply rtc_refl. Qed.

Lemma traces_throw P {A} e : traces P (@throw A e).
Proof. intros s. apply rtc_refl. Qed.

Lemma traces_bind P {A B} (m : M A) (k : A → M B) :
  traces P m → (∀ a, traces P (k a)) → traces P (bind m k).
Proof.
  intros Hm Hk s. unfold bind. specialize (Hm s).
  destruct (m s) as [[a| | |] s']; simpl in *; auto.
  etrans; [exact Hm | apply Hk].
Qed.

Lemma traces_assert P b : traces P (assert b).
Proof. intros s. unfold assert. destruct NDEBUG, b; apply rtc_refl. Qed.

Lemma traces_table_at P Itf p : traces P (table_at Itf p).
Proof.
  intros s. unfold table_at.
  destruct (cells s !! p) as [[J t| |]|]; try apply rtc_refl.
  destruct (decide (J = Itf)); apply rtc_refl.
Qed.

Lemma traces_string_at P p : traces P (string_at p).
Proof.
  intros s. unfold string_at.
  destruct (cells s !! p) as [[| |]|]; apply rtc_refl.
Qed.

Lemma traces_dynamic_type P a : traces P (dynamic_type a).
Proof.
  intros s. unfold dynamic_type.
  destruct (objects (client s) !! a); apply rtc_refl.
Qed.

Lemma traces_run_client P {A} (f : Client → ClientResult A * Client) :
  P LClient → traces P (run_client f).
Proof.
  intros HP s. unfold run_client.
  destruct (f (client s)) as [[a|e] c]; simpl;
    apply rtc_once; exists LClient; split; auto; constructor.
Qed.

Lemma traces_make_shared P T : P LClient → traces P (make_shared T).
Proof.
  intros HP s. unfold make_shared.
  destruct (construct T (world (client s))) as [[a|e] w]; simpl;
    apply rtc_once; exists LClient; split; auto; constructor.
Qed.

Lemma traces_invoke P g : P LClient → traces P (invoke g).
Proof.
  intros HP. destruct g; simpl.
  - apply traces_make_shared; auto.
  - apply traces_run_client; auto.
Qed.

Lemma traces_value P C V :
  P LMap → P (LCell (storage_key C V) V) → traces P (value C V).
Proof.
  intros HM HC s. rewrite value_unfold.
  destruct (cell_addr C V s) as [p|] eqn:Ha; simpl; [apply rtc_refl|].
  unfold cell_addr, lookup_key in Ha.
  destruct (m_data s) as [d|] eqn:Hd; simpl in *.
  - apply rtc_once. exists (LCell (storage_key C V) V). split; [auto|].
    by apply up_cell.
  - eapply rtc_l.
    + exists LMap. split; [auto|]. by apply up_map.
    + apply rtc_once. exists (LCell (storage_key C V) V). split; [auto|].
      eapply (up_cell (set_m_data (Some ∅) s) ∅); [reflexivity|apply lookup_empty].
Qed.

(** A computation that starts by fetching a cell continues from a state in
    which the cell is registered at the address returned. *)
Lemma traces_with_value P {A} C V (k : nat → M A) :
  P LMap → P (LCell (storage_key C V) V) →
  (∀ p s, cell_addr C V s = Some p → updates P s (snd (k p s))) →
  traces P (bind (value C V) k).
Proof.
  intros HM HC Hk s. unfold bind.
  destruct (value_returns C V s) as (p & Hr & Ha).
  pose proof (traces_value P C V HM HC s) as Hv.
  destruct (value C V s) as [o s']; simpl in *; subst o.
  etrans; [exact Hv | by apply Hk].
Qed.

Lemma registerType_traces P Itf typeId g :
  P LMap → P (LCell (storage_key (Factory Itf) (Registry Itf)) (Registry Itf)) →
  P (LTable (storage_key (Factory Itf) (Registry Itf)) Itf typeId g) →
  traces P (registerType Itf typeId g).
Proof.
  intros HM HC HT. unfold registerType, registry.
  apply traces_with_value; auto. intros p s Ha.
  unfold bind, table_at, assert, table_assign.
  destruct (cells s !! p) as [[J t| |]|] eqn:Hc; simpl; try apply rtc_refl.
  destruct (decide (J = Itf)) as [->|]; simpl; [|apply rtc_refl].
  assert (updates P s
    (set_cells (<[p := RegistryCell Itf (<[typeId := g]> t)]> (cells s)) s)) as Hup.
  { apply rtc_once. eexists; split; [exact HT|]. by eapply up_table. }
  destruct NDEBUG; simpl.
  - rewrite Hc. destruct (decide (Itf = Itf)); [exact Hup | apply rtc_refl].
  - destruct (bool_decide (t !! typeId = None)); simpl; [|apply rtc_refl].
    rewrite Hc. destruct (decide (Itf = Itf)); [exact Hup | apply rtc_refl].
Qed.

Lemma staticTypeId_traces P T Itf :
  P LMap → P (LCell (storage_key (FactoryMixin T Itf) StdString) StdString) →
  traces P (staticTypeId T Itf).
Proof.
  intros HM HC. unfold staticTypeId.
  apply traces_bind; [by apply traces_value | intros; apply traces_string_at].
Qed.

Lemma record_traces P T Itf typeId :
  P LMap → P (LCell (storage_key (FactoryMixin T Itf) StdString) StdString) →
  P (LString (storage_key (FactoryMixin T Itf) StdString) typeId) →
  traces P (let* p := value (FactoryMixin T Itf) StdString in
            string_assign p typeId).
Proof.
  intros HM HC HS. apply traces_with_value; auto. intros p s Ha.
  unfold string_assign.
  destruct (cells s !! p) as [[| old |]|] eqn:Hc; simpl; try apply rtc_refl.
  apply rtc_once. eexists; split; [exact HS|]. by eapply up_string.
Qed.

Lemma Registrator_traces P T Itf typeId :
  P LMap → P (LCell (storage_key (Factory Itf) (Registry Itf)) (Registry Itf)) →
  P (LTable (storage_key (Factory Itf) (Registry Itf)) Itf typeId (MixinNewInstance T Itf)) →
  P (LCell (storage_key (FactoryMixin T Itf) StdString) StdString) →
  P (LString (storage_key (FactoryMixin T Itf) StdString) typeId) →
  traces P (Registrator T Itf typeId).
Proof.
  intros HM HC HT HC' HS. unfold Registrator.
  apply traces_bind; [by apply registerType_traces | intros _].
  by apply record_traces.
Qed.

Lemma with_registry_traces P {A} Itf (k : gmap string Generator → M A) :
  P LMap → P (LCell (storage_key (Factory Itf) (Registry Itf)) (Registry Itf)) →
  (∀ t, traces P (k t)) →
  traces P (let* r := registry Itf in let* t := table_at Itf r in k t).
Proof.
  intros HM HC Hk. unfold registry.
  apply traces_bind; [by apply traces_value | intros r].
  apply traces_bind; [apply traces_table_at | exact Hk].
Qed.

Lemma TypeIdGetter_typeId_traces P Itf o :
  P LMap → P LClient →
  (∀ T, P (LCell (storage_key (FactoryMixin T Itf) StdString) StdString)) →
  traces P (TypeIdGetter_typeId Itf o).
Proof.
  intros HM HC HT. unfold TypeIdGetter_typeId.
  destruct o as [a|]; [|apply traces_ret].
  apply traces_bind; [apply traces_dynamic_type | intros D].
  destruct (final_overrider D Itf) as [[T|code]|]; simpl.
  - by apply staticTypeId_traces.
  - by apply traces_run_client.
  - apply traces_ret.
Qed.

Lemma step_updates op : traces (allowed op) (step op).
Proof.
  destruct op; simpl; unfold discard.
  - apply traces_bind; [|intros; apply traces_ret].
    apply traces_value; simpl; eauto.
  - apply registerType_traces; simpl; eauto.
  - apply traces_bind; [|intros; apply traces_ret].
    unfold newInstance. apply with_registry_traces; simpl; eauto.
    intros t. destruct (t !! typeId); [by apply traces_invoke | apply traces_throw].
  - apply traces_bind; [|intros; apply traces_ret].
    unfold registeredTypes. apply with_registry_traces; simpl; eauto.
    intros; apply traces_ret.
  - apply traces_bind; [|intros; apply traces_ret].
    unfold isTypeRegistered. apply with_registry_traces; simpl; eauto.
    intros; apply traces_ret.
  - apply Registrator_traces; simpl; eauto.
  - apply traces_bind; [|intros; apply traces_ret].
    apply staticTypeId_traces; simpl; eauto.
  - apply traces_bind; [|intros; apply traces_ret].
    apply TypeIdGetter_typeId_traces; simpl; eauto.
Qed.

Lemma run_updates ops s :
  updates (λ l, ∃ op, op ∈ ops ∧ allowed op l) s (snd (run ops s)).
Proof.
  revert s. induction ops as [|op ops IH]; intros s; simpl; [apply rtc_refl|].
  assert (updates (λ l, ∃ op', op' ∈ op :: ops ∧ allowed op' l) s (snd (step op s)))
    as Hstep.
  { eapply updates_mono; [|apply step_updates].
    intros l Hl. exists op. split; [left | done]. }
  assert (∀ s', updates (λ l, ∃ op', op' ∈ op :: ops ∧ allowed op' l) s'
                  (snd (run ops s'))) as Hrest.
  { intros s'. eapply updates_mono; [|apply IH].
    intros l (op' & Hin & Hl). exists op'. split; [by right | done]. }
  destruct (step op s) as [[[]|e| |] s']; simpl in *; auto.
  - etrans; [exact Hstep | apply Hrest].
  - etrans; [exact Hstep | apply Hrest].
Qed.

(** ** What a transition preserves *)

Lemma update_lookup_key l s s' k p :
  update l s s' → lookup_key k s = Some p → lookup_key k s' = Some p.
Proof.
  unfold lookup_key. destruct 1 as [s Hd|s d key V Hd Hk| | |]; simpl; auto.
  - rewrite Hd. discriminate.
  - rewrite Hd. simpl. intros Hp.
    rewrite lookup_insert_ne; [done|]. intros ->. congruence.
Qed.

Lemma updates_lookup_key P s s' k p :
  updates P s s' → lookup_key k s = Some p → lookup_key k s' = Some p.
Proof.
  induction 1 as [|s s1 s2 (l & _ & Hu) _ IH]; auto.
  intros Hp. apply IH. eapply update_lookup_key; eauto.
Qed.

Lemma update_client l s s' : update l s s' → l ≠ LClient → client s' = client s.
Proof. destruct 1; simpl; congruence. Qed.

Lemma update_wf l s s' : update l s s' → wf s → wf s'.
Proof.
  unfold wf, lookup_key.
  destruct 1 as [s Hd|s d key V Hd Hk|s key p Itf t id g Hp Hc
                |s key p old id Hp Hc|s c]; simpl; intros [Hv Hi].
  - split; intros k; intros; simplify_map_eq.
  - rewrite Hd in Hv, Hi. simpl in *. rewrite length_app. simpl. split.
    + intros k p. destruct (decide (key = k)) as [->|Hne].
      * rewrite lookup_insert_eq. intros [= <-]. lia.
      * rewrite lookup_insert_ne by done. intros Hp%Hv. lia.
    + intros k k' p.
      destruct (decide (key = k)) as [<-|Hne], (decide (key = k')) as [<-|Hne'];
        rewrite ?lookup_insert_eq, ?lookup_insert_ne by done; auto.
      * intros [= <-] Hp%Hv. lia.
      * intros Hp%Hv [= <-]. lia.
      * apply Hi.
  - rewrite length_insert. auto.
  - rewrite length_insert. auto.
  - auto.
Qed.

Lemma update_change l s s' k :
  update l s s' → wf s → change l k (cell_at k s) (cell_at k s').
Proof.
  unfold wf, cell_at, lookup_key.
  destruct 1 as [s Hd|s d key V Hd Hk|s key p Itf t id g Hp Hc
                |s key p old id Hp Hc|s c]; simpl; intros [Hv Hi].
  - rewrite Hd. simpl. rewrite lookup_empty. constructor.
  - rewrite Hd in Hv, Hi |- *. simpl in *.
    destruct (decide (key = k)) as [->|Hne].
    + rewrite Hk, lookup_insert_eq. simpl.
      rewrite lookup_app_r, Nat.sub_diag by lia. simpl. constructor.
    + rewrite lookup_insert_ne by done.
      destruct (d !! k) as [q|] eqn:Hq; simpl; [|constructor].
      rewrite lookup_app_l by eauto. constructor.
  - unfold lookup_key in Hp.
    destruct (m_data s ≫= λ d, d !! k) as [q|] eqn:Hq; simpl; [|constructor].
    destruct (decide (q = p)) as [->|Hne].
    + assert (key = k) as -> by eauto.
      rewrite Hc, list_lookup_insert_eq by (by eapply lookup_lt_Some).
      constructor.
    + rewrite list_lookup_insert_ne by done. constructor.
  - unfold lookup_key in Hp.
    destruct (m_data s ≫= λ d, d !! k) as [q|] eqn:Hq; simpl; [|constructor].
    destruct (decide (q = p)) as [->|Hne].
    + assert (key = k) as -> by eauto.
      rewrite Hc, list_lookup_insert_eq by (by eapply lookup_lt_Some).
      constructor.
    + rewrite list_lookup_insert_ne by done. constructor.
  - constructor.
Qed.

(** Without any assumption on the state: a cell that exists stays, or is a
    table that gained an entry, or is a string that was assigned. *)
Lemma update_cell_kept l s s' k c :
  update l s s' → cell_at k s = Some c →
  cell_at k s' = Some c ∨
  (∃ Itf t id g, c = RegistryCell Itf t ∧
                 cell_at k s' = Some (RegistryCell Itf (<[id := g]> t))) ∨
  (∃ old id, c = TypeIdCell old ∧ cell_at k s' = Some (TypeIdCell id)).
Proof.
  unfold cell_at, lookup_key.
  destruct 1 as [s Hd|s d key V Hd Hk|s key p Itf t id g Hp Hc
                |s key p old id Hp Hc|s c']; simpl.
  - rewrite Hd. discriminate.
  - rewrite Hd. simpl. intros Hq.
    destruct (d !! k) as [q|] eqn:Hdk; simplify_eq/=.
    left. rewrite lookup_insert_ne by congruence. rewrite Hdk. simpl.
    rewrite lookup_app_l; [done|]. by eapply lookup_lt_Some.
  - destruct (m_data s ≫= λ d, d !! k) as [q|]; simpl; [|discriminate].
    intros Hq. destruct (decide (q = p)) as [->|Hne].
    + rewrite list_lookup_insert_eq by (by eapply lookup_lt_Some).
      right; left. exists Itf, t, id, g. split; congruence.
    + rewrite list_lookup_insert_ne by done. auto.
  - destruct (m_data s ≫= λ d, d !! k) as [q|]; simpl; [|discriminate].
    intros Hq. destruct (decide (q = p)) as [->|Hne].
    + rewrite list_lookup_insert_eq by (by eapply lookup_lt_Some).
      right; right. exists old, id. split; congruence.
    + rewrite list_lookup_insert_ne by done. auto.
  - auto.
Qed.

Lemma init_wf w : wf (init w).
Proof. split; intros k; intros; discriminate. Qed.

Lemma updates_wf P s s' : updates P s s' → wf s → wf s'.
Proof.
  induction 1 as [|s s1 s2 (l & _ & Hu) _ IH]; auto.
  intros Hwf. apply IH. eapply update_wf; eauto.
Qed.

(** Invariants of well-formed states carry over any sequence of
    transitions. *)
Lemma updates_invariant P (K : State → Prop) :
  (∀ l s s', P l → update l s s' → wf s → K s → K s') →
  ∀ s s', updates P s s' → wf s → K s → K s'.
Proof.
  intros Hstep s s'. induction 1 as [|s s1 s2 (l & Hl & Hu) _ IH]; auto.
  intros Hwf HK. apply IH; [eapply update_wf|]; eauto.
Qed.

Lemma run_wf ops w : wf (snd (run ops (init w))).
Proof. eapply updates_wf; [apply run_updates | apply init_wf]. Qed.

(** ** Access to the registry of an interface *)

Lemma table_cell Itf s p t :
  cell_addr (Factory Itf) (Registry Itf) s = Some p →
  cells s !! p = Some (RegistryCell Itf t) →
  table Itf s = t.
Proof.
  unfold table, cell_of, cell_at, cell_addr. intros -> Hc. simpl. rewrite Hc.
  by rewrite decide_True.
Qed.

Lemma table_absent Itf s :
  cell_addr (Factory Itf) (Registry Itf) s = None → table Itf s = ∅.
Proof. unfold table, cell_of, cell_at, cell_addr. by intros ->. Qed.

(** The common prefix [auto& r = registry(); ... r ...] of the four
    operations: it continues with the address of the table cell and the
    table as it was on entry. *)
Lemma with_registry Itf s :
  registry_ok Itf s →
  ∃ p, cell_addr (Factory Itf) (Registry Itf) (snd (registry Itf s)) = Some p ∧
       cells (snd (registry Itf s)) !! p = Some (RegistryCell Itf (table Itf s)) ∧
       ∀ A (k : nat → gmap string Generator → M A),
         (let* r := registry Itf in let* t := table_at Itf r in k r t) s
         = k p (table Itf s) (snd (registry Itf s)).
Proof.
  unfold registry_ok, registry. rewrite value_unfold.
  destruct (cell_addr (Factory Itf) (Registry Itf) s) as [p|] eqn:Ha; simpl.
  - intros [t Hc]. exists p. rewrite (table_cell _ _ _ _ Ha Hc).
    split; [done|]. split; [done|]. intros A k.
    unfold bind at 1. rewrite value_unfold, Ha.
    unfold bind, table_at. rewrite Hc. by rewrite decide_True.
  - intros _. exists (length (cells s)). rewrite (table_absent _ _ Ha).
    assert ((cells s ++ [RegistryCell Itf ∅])%list !! length (cells s)
            = Some (RegistryCell Itf ∅)) as Hc.
    { rewrite lookup_app_r, Nat.sub_diag by lia. done. }
    split; [unfold cell_addr, lookup_key; simpl; apply lookup_insert_eq|].
    split; [done|]. intros A k.
    unfold bind at 1. rewrite value_unfold, Ha.
    unfold bind, table_at. simpl. rewrite Hc. by rewrite decide_True.
Qed.

Lemma registry_present Itf s :
  cell_addr (Factory Itf) (Registry Itf) s ≠ None → snd (registry Itf s) = s.
Proof.
  unfold registry. rewrite value_unfold.
  destruct (cell_addr (Factory Itf) (Registry Itf) s); done.
Qed.

Lemma table_Some_present Itf s typeId g :
  table Itf s !! typeId = Some g →
  cell_addr (Factory Itf) (Registry Itf) s ≠ None.
Proof.
  intros Ht Ha. rewrite (table_absent _ _ Ha) in Ht. by rewrite lookup_empty in Ht.
Qed.

(** What [registry()] may do to the cell under any key: nothing, or create
    the empty table there. *)
Lemma registry_cell_at Itf s k :
  cell_at k (snd (registry Itf s)) = cell_at k s ∨
  (cell_at k s = None ∧
   cell_at k (snd (registry Itf s)) = Some (RegistryCell Itf ∅)).
Proof.
  unfold registry. rewrite value_unfold.
  destruct (cell_addr (Factory Itf) (Registry Itf) s) as [p|] eqn:Ha; simpl; [by left|].
  unfold cell_addr, lookup_key in Ha. unfold cell_at, lookup_key. simpl.
  destruct (decide (storage_key (Factory Itf) (Registry Itf) = k)) as [<-|Hne].
  - right. rewrite Ha, lookup_insert_eq. simpl.
    by rewrite lookup_app_r, Nat.sub_diag by lia.
  - rewrite lookup_insert_ne by done.
    destruct (m_data s) as [d|]; simpl; [|rewrite lookup_empty; by left].
    destruct (d !! k) as [q|]; simpl; [|by left].
    destruct (decide (q < length (cells s))) as [Hlt|Hge].
    + left. by rewrite lookup_app_l.
    + rewrite (lookup_ge_None_2 (cells s) q) by lia.
      destruct (decide (q = length (cells s))) as [->|].
      * right. by rewrite lookup_app_r, Nat.sub_diag by lia.
      * left. apply lookup_ge_None_2. rewrite length_app. simpl. lia.
Qed.

Lemma registry_client Itf s : client (snd (registry Itf s)) = client s.
Proof.
  unfold registry. rewrite value_unfold.
  by destruct (cell_addr (Factory Itf) (Registry Itf) s).
Qed.

(** Client code raises its own exceptions, never the library's. *)
Lemma invoke_no_RuntimeError g s what :
  fst (invoke g s) ≠ Throw (RuntimeError what).
Proof.
  destruct g as [T Itf|code]; simpl;
    unfold FactoryMixin_newInstance, make_shared, run_client.
  - by destruct (construct T (world (client s))) as [[[]|e] w].
  - by destruct (callable code (client s)) as [[a|e] c].
Qed.

Lemma registerType_eval Itf typeId g s :
  registry_ok Itf s →
  ∃ p, cell_addr (Factory Itf) (Registry Itf) (snd (registry Itf s)) = Some p ∧
       cells (snd (registry Itf s)) !! p = Some (RegistryCell Itf (table Itf s)) ∧
       registerType Itf typeId g s =
       if NDEBUG || bool_decide (table Itf s !! typeId = None)
       then (Ret tt,
             set_cells (<[p := RegistryCell Itf (<[typeId := g]> (table Itf s))]>
                          (cells (snd (registry Itf s))))
                       (snd (registry Itf s)))
       else (Abort, snd (registry Itf s)).
Proof.
  intros Hok. destruct (with_registry Itf s Hok) as (p & Ha & Hc & Hk).
  exists p. split; [done|]. split; [done|].
  unfold registerType. rewrite Hk.
  unfold bind, assert, table_assign.
  destruct NDEBUG; simpl.
  - rewrite Hc. by rewrite decide_True.
  - destruct (bool_decide (table Itf s !! typeId = None)); [|done].
    rewrite Hc. by rewrite decide_True.
Qed.

Lemma newInstance_eval Itf typeId s :
  registry_ok Itf s →
  newInstance Itf typeId s =
    match table Itf s !! typeId with
    | None =>
        (Throw (RuntimeError ("Failed to find type '" +:+ typeId +:+ "' in registry")),
         snd (registry Itf s))
    | Some g => invoke g (snd (registry Itf s))
    end.
Proof.
  intros Hok. destruct (with_registry Itf s Hok) as (p & _ & _ & Hk).
  unfold newInstance. rewrite Hk. by destruct (table Itf s !! typeId).
Qed.

Lemma TypeIdGetter_typeId_eval Itf a D s :
  objects (client s) !! a = Some D →
  TypeIdGetter_typeId Itf (Some a) s =
    match final_overrider D Itf with
    | None => (Ret "", s)
    | Some f => virtual_typeId Itf f s
    end.
Proof.
  intros Hobj. unfold TypeIdGetter_typeId, bind, dynamic_type. rewrite Hobj.
  by destruct (final_overrider D Itf).
Qed.

Lemma virtual_typeId_recorded T Itf s id :
  recorded_id T Itf s = Some id →
  virtual_typeId Itf (ByMixin T) s = (Ret id, s).
Proof.
  intros Hid. simpl. unfold FactoryMixin_typeId, staticTypeId, bind.
  unfold recorded_id, cell_of, cell_at in Hid.
  destruct (lookup_key (storage_key (FactoryMixin T Itf) StdString) s)
    as [p|] eqn:Hp; [|done].
  rewrite (value_present _ _ _ _ Hp). simpl in Hid. unfold string_at.
  destruct (cells s !! p) as [[| id' |]|]; simplify_eq. done.
Qed.

Lemma update_table_grows l s s' Itf :
  update l s s' → dom (table Itf s) ⊆ dom (table Itf s').
Proof.
  intros Hu id [g Hg]%elem_of_dom. unfold table, cell_of in *.
  destruct (cell_at (storage_key (Factory Itf) (Registry Itf)) s)
    as [[J t| |]|] eqn:Hc; try by rewrite lookup_empty in Hg.
  destruct (decide (J = Itf)) as [->|]; [|by rewrite lookup_empty in Hg].
  destruct (update_cell_kept _ _ _ _ _ Hu Hc)
    as [H|[(Itf' & t' & id' & g' & Heq & H)|(old & id' & Heq & H)]].
  - rewrite H, decide_True by done. apply elem_of_dom; eauto.
  - simplify_eq. rewrite H, decide_True by done. apply elem_of_dom.
    destruct (decide (id' = id)) as [->|].
    + rewrite lookup_insert_eq; eauto.
    + rewrite lookup_insert_ne by done; eauto.
  - discriminate.
Qed.

Lemma updates_table_grows P s s' Itf :
  updates P s s' → dom (table Itf s) ⊆ dom (table Itf s').
Proof.
  induction 1 as [|s s1 s2 (l & _ & Hu) _ IH]; [done|].
  etrans; [by eapply update_table_grows | done].
Qed.

(** ** The claims settled on single calls *)



(** C3, as amended.  When assertions are compiled in (NDEBUG not defined),
    a registerType call with an identifier already present in the
    interface's table ends in the failed assertion and changes nothing: the
    identifier keeps the generator it had. *)
Theorem registerType_duplicate_asserts Itf typeId g s :
  NDEBUG = false →
  registry_ok Itf s →
  is_Some (table Itf s !! typeId) →
  registerType Itf typeId g s = (Abort, s) ∧ rejects_duplicate Itf typeId g s.
Proof.
  intros Hdebug Hok [g0 Hg0].
  assert (registerType Itf typeId g s = (Abort, s)) as Heq.
  { destruct (registerType_eval Itf typeId g s Hok) as (p & _ & _ & ->).
    rewrite Hdebug, Hg0. simpl.
    rewrite registry_present; [done|]. by eapply table_Some_present. }
  split; [exact Heq|]. unfold rejects_duplicate. rewrite Heq. done.
Qed.

(** C6. In every state in which the registry cell of interface I is absent
    or holds I's table, registeredTypes() returns a sequence without
    repetitions whose elements are exactly the identifiers registered in
    the table. *)
Theorem registeredTypes_complete Itf s :
  registry_ok Itf s →
  ∃ l, fst (registeredTypes Itf s) = Ret l ∧
       list_to_set l = dom (table Itf s) ∧
       NoDup l ∧
       length l = size (table Itf s).
Proof.
  intros Hok. destruct (with_registry Itf s Hok) as (p & _ & _ & Hk).
  exists (keys_in_order (table Itf s)).
  split; [unfold registeredTypes; by rewrite Hk|].
  unfold keys_in_order.
  pose proof (merge_sort_Permutation (λ a b : string, String.leb a b)
                (map_to_list (table Itf s)).*1) as Hperm.
  split; [|split].
  - apply set_eq. intros id.
    rewrite elem_of_list_to_set, Hperm, elem_of_dom, list_elem_of_fmap.
    split.
    + intros ([id' g] & -> & Hin%elem_of_map_to_list). eauto.
    + intros [g Hg]. exists (id, g). split; [done|]. by apply elem_of_map_to_list.
  - rewrite Hperm. apply NoDup_fst_map_to_list.
  - rewrite Hperm, length_fmap. apply length_map_to_list.
Qed.

(** C7. TypeIdGetter<I>::typeId(o) returns the empty string, leaving the
    state as it is, for a null handle and for a live object whose class has
    no TypeIdGetter<I> base; for a live object that has one it is the
    object's own virtual typeId(), which for a class inheriting it from
    FactoryMixin<T, I> with a recorded identifier returns that identifier. *)
Theorem TypeIdGetter_typeId_soft Itf a D s :
  objects (client s) !! a = Some D →
  TypeIdGetter_typeId Itf None s = (Ret "", s) ∧
  TypeIdGetter_typeId Itf (Some a) s =
    match final_overrider D Itf with
    | None => (Ret "", s)
    | Some f => virtual_typeId Itf f s
    end ∧
  ∀ T id, final_overrider D Itf = Some (ByMixin T) →
          recorded_id T Itf s = Some id →
          TypeIdGetter_typeId Itf (Some a) s = (Ret id, s).
Proof.
  intros Hobj. split; [done|].
  split; [by apply TypeIdGetter_typeId_eval|].
  intros T id Hf Hid.
  rewrite (TypeIdGetter_typeId_eval _ _ _ _ Hobj), Hf.
  by apply virtual_typeId_recorded.
Qed.

(** C8, as amended.  For an identifier that is not in the interface's
    table, newInstance throws the std::runtime_error and calls no generator:
    the client state, every interface's table and every recorded identifier
    are as before.  The storage itself is as [registry()] leaves it: unchanged
    when the interface's table cell exists already, and otherwise extended by
    that (empty) cell, created on this first access. *)
Theorem newInstance_unknown_id Itf typeId s :
  registry_ok Itf s →
  table Itf s !! typeId = None →
  newInstance Itf typeId s =
    (Throw (RuntimeError ("Failed to find type '" +:+ typeId +:+ "' in registry")),
     snd (registry Itf s)) ∧
  client (snd (registry Itf s)) = client s ∧
  (∀ J, table J (snd (registry Itf s)) = table J s) ∧
  (∀ T J, recorded_id T J (snd (registry Itf s)) = recorded_id T J s) ∧
  (cell_addr (Factory Itf) (Registry Itf) s ≠ None → snd (registry Itf s) = s).
Proof.
  intros Hok Habs.
  pose proof (newInstance_eval Itf typeId s Hok) as Heq.
  rewrite Habs in Heq.
  split; [exact Heq|]. split; [apply registry_client|].
  split; [|split; [|apply registry_present]].
  - intros J. unfold table, cell_of.
    destruct (registry_cell_at Itf s (storage_key (Factory J) (Registry J)))
      as [-> | [-> ->]]; [done|]. by destruct (decide (Itf = J)).
  - intros T J. unfold recorded_id, cell_of.
    by destruct (registry_cell_at Itf s (storage_key (FactoryMixin T J) StdString))
      as [-> | [-> ->]].
Qed.

(** C9. Over every sequence of calls of the library (the four registry
    operations and the others alike), from every state, the set of
    identifiers registered in an interface's table only grows: no call
    removes an entry. *)
Theorem registered_ids_only_grow ops s Itf :
  dom (table Itf s) ⊆ dom (table Itf (snd (run ops s))).
Proof. eapply updates_table_grows, run_updates. Qed.

(** ** Access to the recorded identifier of an implementation *)

Lemma staticTypeId_eval T Itf s :
  recorded_ok T Itf s →
  staticTypeId T Itf s =
    (Ret (default "" (recorded_id T Itf s)),
     snd (value (FactoryMixin T Itf) StdString s)) ∧
  recorded_id T Itf (snd (value (FactoryMixin T Itf) StdString s))
    = Some (default "" (recorded_id T Itf s)).
Proof.
  unfold recorded_ok, staticTypeId, recorded_id, cell_of, cell_at, bind.
  rewrite value_unfold. unfold cell_addr.
  destruct (lookup_key (storage_key (FactoryMixin T Itf) StdString) s)
    as [p|] eqn:Ha; simpl.
  - intros [id Hc]. rewrite Ha. simpl. unfold string_at. rewrite Hc. done.
  - intros _. unfold string_at, lookup_key. simpl.
    rewrite lookup_insert_eq. simpl.
    rewrite lookup_app_r, Nat.sub_diag by lia. done.
Qed.

(** The second statement of the Registrator constructor. *)
Lemma record_eval T Itf typeId s :
  recorded_ok T Itf s →
  ∃ s', (let* p := value (FactoryMixin T Itf) StdString in
         string_assign p typeId) s = (Ret tt, s') ∧
        recorded_id T Itf s' = Some typeId.
Proof.
  unfold recorded_ok, recorded_id, cell_of, cell_at, bind.
  rewrite value_unfold. unfold cell_addr.
  destruct (lookup_key (storage_key (FactoryMixin T Itf) StdString) s)
    as [p|] eqn:Ha; simpl.
  - intros [id Hc]. unfold string_assign. rewrite Hc.
    eexists; split; [done|]. unfold lookup_key in *. simpl. rewrite Ha. simpl.
    rewrite list_lookup_insert_eq by (by eapply lookup_lt_Some). done.
  - intros _. unfold string_assign. simpl.
    rewrite lookup_app_r, Nat.sub_diag by lia. simpl.
    eexists; split; [done|]. unfold lookup_key. simpl.
    rewrite lookup_insert_eq. simpl.
    rewrite list_lookup_insert_eq by (rewrite length_app; simpl; lia). done.
Qed.

Lemma change_Some l k c c' :
  change l k (Some c) c' →
  c' = Some c ∨
  (∃ Itf id g t, l = LTable k Itf id g ∧ c = RegistryCell Itf t ∧
                 c' = Some (RegistryCell Itf (<[id := g]> t))) ∨
  (∃ id old, l = LString k id ∧ c = TypeIdCell old ∧ c' = Some (TypeIdCell id)).
Proof. inversion 1; subst; eauto 10. Qed.

(** A cell that exists is untouched by transitions that assign elsewhere. *)
Lemma cell_frame P k s s' c :
  (∀ Itf id g, ¬ P (LTable k Itf id g)) →
  (∀ id, ¬ P (LString k id)) →
  updates P s s' → wf s → cell_at k s = Some c → cell_at k s' = Some c.
Proof.
  intros HT HS. apply (updates_invariant P (λ s1, cell_at k s1 = Some c)).
  intros l s1 s2 Hl Hu Hwf Hc.
  pose proof (update_change l s1 s2 k Hu Hwf) as Hch. rewrite Hc in Hch.
  inversion Hch as [l' k' c' Hsame| |k' J id g t|k' id old]; subst.
  - done.
  - by destruct (HT J id g).
  - by destruct (HS id).
Qed.

Lemma table_Some_cell Itf s typeId g :
  table Itf s !! typeId = Some g →
  ∃ t, cell_at (storage_key (Factory Itf) (Registry Itf)) s
       = Some (RegistryCell Itf t) ∧ t !! typeId = Some g.
Proof.
  unfold table, cell_of.
  destruct (cell_at (storage_key (Factory Itf) (Registry Itf)) s)
    as [[J t| |]|]; try by rewrite lookup_empty.
  destruct (decide (J = Itf)) as [->|]; [eauto | by rewrite lookup_empty].
Qed.

Lemma recorded_Some_cell T Itf s id :
  recorded_id T Itf s = Some id →
  cell_at (storage_key (FactoryMixin T Itf) StdString) s = Some (TypeIdCell id).
Proof.
  unfold recorded_id, cell_of.
  destruct (cell_at (storage_key (FactoryMixin T Itf) StdString) s)
    as [[| id' |]|]; congruence.
Qed.

Lemma table_Some_registry_ok Itf s typeId g :
  table Itf s !! typeId = Some g → registry_ok Itf s.
Proof.
  intros (t & Hc & _)%table_Some_cell. unfold registry_ok, cell_addr.
  unfold cell_at in Hc.
  destruct (lookup_key (storage_key (Factory Itf) (Registry Itf)) s); [eauto|done].
Qed.


(** ** Further properties of single calls *)

Lemma registeredTypes_eval Itf s :
  registry_ok Itf s →
  registeredTypes Itf s = (Ret (keys_in_order (table Itf s)), snd (registry Itf s)).
Proof.
  intros Hok. destruct (with_registry Itf s Hok) as (p & _ & _ & Hk).
  unfold registeredTypes. by rewrite Hk.
Qed.

Lemma isTypeRegistered_eval Itf typeId s :
  registry_ok Itf s →
  isTypeRegistered Itf typeId s
  = (Ret (bool_decide (is_Some (table Itf s !! typeId))), snd (registry Itf s)).
Proof.
  intros Hok. destruct (with_registry Itf s Hok) as (p & _ & _ & Hk).
  unfold isTypeRegistered. by rewrite Hk.
Qed.

Lemma elem_of_keys_in_order (t : gmap string Generator) id :
  id ∈ keys_in_order t ↔ is_Some (t !! id).
Proof.
  unfold keys_in_order. rewrite merge_sort_Permutation, list_elem_of_fmap. split.
  - intros ([id' g] & -> & Hin%elem_of_map_to_list). eauto.
  - intros [g Hg]. exists (id, g). split; [done|]. by apply elem_of_map_to_list.
Qed.

Lemma table_ext J s s' :
  m_data s' = m_data s → cells s' = cells s → table J s' = table J s.
Proof.
  intros Hd Hc. unfold table, cell_of, cell_at, lookup_key. by rewrite Hd, Hc.
Qed.

Lemma recorded_ext T J s s' :
  m_data s' = m_data s → cells s' = cells s →
  recorded_id T J s' = recorded_id T J s.
Proof.
  intros Hd Hc. unfold recorded_id, cell_of, cell_at, lookup_key. by rewrite Hd, Hc.
Qed.

Lemma registry_table Itf s J : table J (snd (registry Itf s)) = table J s.
Proof.
  unfold table, cell_of.
  destruct (registry_cell_at Itf s (storage_key (Factory J) (Registry J)))
    as [-> | [-> ->]]; [done|]. by destruct (decide (Itf = J)).
Qed.

Lemma registry_recorded Itf s T J :
  recorded_id T J (snd (registry Itf s)) = recorded_id T J s.
Proof.
  unfold recorded_id, cell_of.
  by destruct (registry_cell_at Itf s (storage_key (FactoryMixin T J) StdString))
    as [-> | [-> ->]].
Qed.

Lemma invoke_storage g s :
  m_data (snd (invoke g s)) = m_data s ∧ cells (snd (invoke g s)) = cells s.
Proof.
  destruct g as [T Itf|code]; simpl;
    unfold FactoryMixin_newInstance, make_shared, run_client.
  - by destruct (construct T (world (client s))) as [[[]|e] w].
  - by destruct (callable code (client s)) as [[a|e] c].
Qed.

Lemma invoke_ends_defined g s : ends_defined (fst (invoke g s)).
Proof.
  destruct g as [T Itf|code]; simpl;
    unfold FactoryMixin_newInstance, make_shared, run_client.
  - by destruct (construct T (world (client s))) as [[[]|e] w].
  - by destruct (callable code (client s)) as [[a|e] c].
Qed.

(** Whatever the state, the three lookups end in the state [registry()]
    leaves, up to what client code did to the client side. *)
Lemma newInstance_storage Itf typeId s :
  m_data (snd (newInstance Itf typeId s)) = m_data (snd (registry Itf s)) ∧
  cells (snd (newInstance Itf typeId s)) = cells (snd (registry Itf s)).
Proof.
  unfold newInstance, bind.
  destruct (value_returns (Factory Itf) (Registry Itf) s) as (p & Hp & _).
  unfold registry in *.
  destruct (value (Factory Itf) (Registry Itf) s) as [o s1]; simpl in *; subst o.
  unfold table_at.
  destruct (cells s1 !! p) as [[J t| |]|]; try done.
  destruct (decide (J = Itf)); [|done].
  destruct (t !! typeId); [apply invoke_storage | done].
Qed.

Lemma registeredTypes_state Itf s :
  snd (registeredTypes Itf s) = snd (registry Itf s).
Proof.
  unfold registeredTypes, bind.
  destruct (value_returns (Factory Itf) (Registry Itf) s) as (p & Hp & _).
  unfold registry in *.
  destruct (value (Factory Itf) (Registry Itf) s) as [o s1]; simpl in *; subst o.
  unfold table_at.
  destruct (cells s1 !! p) as [[J t| |]|]; try done.
  by destruct (decide (J = Itf)).
Qed.

Lemma isTypeRegistered_state Itf typeId s :
  snd (isTypeRegistered Itf typeId s) = snd (registry Itf s).
Proof.
  unfold isTypeRegistered, bind.
  destruct (value_returns (Factory Itf) (Registry Itf) s) as (p & Hp & _).
  unfold registry in *.
  destruct (value (Factory Itf) (Registry Itf) s) as [o s1]; simpl in *; subst o.
  unfold table_at.
  destruct (cells s1 !! p) as [[J t| |]|]; try done.
  by destruct (decide (J = Itf)).
Qed.

(** The state a registration that goes through ends in. *)
Lemma registerType_done Itf typeId g s :
  registry_ok Itf s →
  NDEBUG = true ∨ table Itf s !! typeId = None →
  ∃ p, cell_addr (Factory Itf) (Registry Itf) (snd (registry Itf s)) = Some p ∧
       cells (snd (registry Itf s)) !! p = Some (RegistryCell Itf (table Itf s)) ∧
       registerType Itf typeId g s =
       (Ret tt,
        set_cells (<[p := RegistryCell Itf (<[typeId := g]> (table Itf s))]>
                     (cells (snd (registry Itf s))))
                  (snd (registry Itf s))).
Proof.
  intros Hok Hfree.
  destruct (registerType_eval Itf typeId g s Hok) as (p & Hp & Hc & Heq).
  exists p. split; [done|]. split; [done|]. rewrite Heq.
  destruct Hfree as [-> | ->]; [done|].
  by rewrite bool_decide_true, orb_true_r.
Qed.

Lemma registerType_duplicate_eval Itf typeId g s :
  NDEBUG = false → registry_ok Itf s → is_Some (table Itf s !! typeId) →
  registerType Itf typeId g s = (Abort, s).
Proof.
  intros Hdebug Hok [g0 Hg0].
  destruct (registerType_eval Itf typeId g s Hok) as (p & _ & _ & ->).
  rewrite Hdebug, Hg0. simpl.
  rewrite registry_present; [done|]. by eapply table_Some_present.
Qed.

Lemma newInstance_mixin_eval Itf typeId T J s :
  table Itf s !! typeId = Some (MixinNewInstance T J) →
  newInstance Itf typeId s = make_shared T s.
Proof.
  intros Htab.
  rewrite newInstance_eval, Htab by (by eapply table_Some_registry_ok).
  by rewrite registry_present by (by eapply table_Some_present).
Qed.

(** X1. isTypeRegistered(id) returns normally; it answers true exactly when
    id is among the identifiers registeredTypes() lists, and false exactly
    when newInstance(id) would throw the library's runtime_error. *)
Theorem isTypeRegistered_agrees Itf typeId s :
  registry_ok Itf s →
  ∃ b l,
    isTypeRegistered Itf typeId s = (Ret b, snd (registry Itf s)) ∧
    fst (registeredTypes Itf s) = Ret l ∧
    (b = true ↔ typeId ∈ l) ∧
    (b = false ↔ ∃ what, fst (newInstance Itf typeId s) = Throw (RuntimeError what)).
Proof.
  intros Hok.
  exists (bool_decide (is_Some (table Itf s !! typeId))), (keys_in_order (table Itf s)).
  split; [by apply isTypeRegistered_eval|].
  split; [by rewrite registeredTypes_eval|].
  rewrite elem_of_keys_in_order, bool_decide_eq_true, bool_decide_eq_false.
  split; [done|]. rewrite newInstance_eval by done.
  destruct (table Itf s !! typeId) as [g|]; simpl.
  - split; [intros Hno; destruct Hno; eauto|].
    intros [what Hw]. by apply invoke_no_RuntimeError in Hw.
  - split; [eauto|]. intros _ [g Hg]. discriminate.
Qed.

(** X2. A registration that goes through (the identifier is new, or the
    assertion is compiled out) returns normally, runs no client code, and puts
    the generator under the identifier: isTypeRegistered then answers true
    and newInstance is the call of that very generator. *)
Theorem registerType_then_lookup Itf typeId g s :
  registry_ok Itf s →
  NDEBUG = true ∨ table Itf s !! typeId = None →
  fst (registerType Itf typeId g s) = Ret tt ∧
  table Itf (snd (registerType Itf typeId g s)) = <[typeId := g]> (table Itf s) ∧
  client (snd (registerType Itf typeId g s)) = client s ∧
  fst (isTypeRegistered Itf typeId (snd (registerType Itf typeId g s))) = Ret true ∧
  newInstance Itf typeId (snd (registerType Itf typeId g s))
    = invoke g (snd (registerType Itf typeId g s)).
Proof.
  intros Hok Hfree.
  destruct (registerType_done Itf typeId g s Hok Hfree) as (p & Hp & Hc & ->).
  cbn [fst snd].
  set (s' := set_cells _ _).
  assert (cell_addr (Factory Itf) (Registry Itf) s' = Some p) as Hp' by exact Hp.
  assert (cells s' !! p
          = Some (RegistryCell Itf (<[typeId := g]> (table Itf s)))) as Hc'.
  { subst s'. simpl. apply list_lookup_insert_eq. by eapply lookup_lt_Some. }
  assert (table Itf s' = <[typeId := g]> (table Itf s)) as Htab
    by by eapply table_cell.
  assert (registry_ok Itf s') as Hok'.
  { unfold registry_ok. rewrite Hp'. eauto. }
  split; [done|]. split; [done|]. split; [apply registry_client|].
  split.
  - rewrite isTypeRegistered_eval, Htab, lookup_insert_eq by done.
    cbn [fst]. by f_equal.
  - rewrite newInstance_eval, Htab, lookup_insert_eq by done.
    rewrite registry_present; [done|]. by rewrite Hp'.
Qed.

(** X3. Registrations of two different identifiers commute when both are new
    to the table (or NDEBUG is defined): in either order both go through and
    the program ends in the same state. *)
Theorem registerType_commutes Itf id1 g1 id2 g2 s :
  registry_ok Itf s →
  id1 ≠ id2 →
  NDEBUG = true ∨ (table Itf s !! id1 = None ∧ table Itf s !! id2 = None) →
  (let* _ := registerType Itf id1 g1 in registerType Itf id2 g2) s
    = (let* _ := registerType Itf id2 g2 in registerType Itf id1 g1) s ∧
  fst ((let* _ := registerType Itf id1 g1 in registerType Itf id2 g2) s) = Ret tt.
Proof.
  intros Hok Hne Hfree.
  assert (∀ ida ga idb gb, ida ≠ idb →
            (NDEBUG = true ∨ (table Itf s !! ida = None ∧ table Itf s !! idb = None)) →
            ∃ p, cells (snd (registry Itf s)) !! p
                   = Some (RegistryCell Itf (table Itf s)) ∧
                 cell_addr (Factory Itf) (Registry Itf) (snd (registry Itf s)) = Some p ∧
            (let* _ := registerType Itf ida ga in registerType Itf idb gb) s =
            (Ret tt,
             set_cells (<[p := RegistryCell Itf
                                 (<[idb := gb]> (<[ida := ga]> (table Itf s)))]>
                          (cells (snd (registry Itf s))))
                       (snd (registry Itf s)))) as Hboth.
  { intros ida ga idb gb Hab Hf. unfold bind.
    destruct (registerType_done Itf ida ga s Hok) as (p & Hp & Hc & ->);
      [destruct Hf as [|[]]; auto|].
    exists p. split; [done|]. split; [done|].
    set (s' := set_cells _ _).
    assert (cell_addr (Factory Itf) (Registry Itf) s' = Some p) as Hp' by exact Hp.
    assert (cells s' !! p
            = Some (RegistryCell Itf (<[ida := ga]> (table Itf s)))) as Hc'.
    { subst s'. simpl. apply list_lookup_insert_eq. by eapply lookup_lt_Some. }
    assert (table Itf s' = <[ida := ga]> (table Itf s)) as Htab
      by by eapply table_cell.
    assert (registry_ok Itf s') as Hok'.
    { unfold registry_ok. rewrite Hp'. eauto. }
    destruct (registerType_done Itf idb gb s' Hok') as (q & Hq & _ & ->).
    { destruct Hf as [|[_ Hb]]; [by left|right].
      by rewrite Htab, lookup_insert_ne. }
    rewrite registry_present in * by (by rewrite Hp').
    assert (q = p) as -> by congruence.
    rewrite Htab. subst s'. unfold set_cells. simpl.
    by rewrite list_insert_insert_eq. }
  destruct (Hboth id1 g1 id2 g2 Hne Hfree) as (p & Hc & Hp & ->).
  destruct (Hboth id2 g2 id1 g1) as (q & _ & Hq & ->);
    [done | destruct Hfree as [|[]]; auto |].
  assert (q = p) as -> by congruence.
  split; [|done]. by rewrite (insert_insert_ne (table Itf s) id2 id1) by done.
Qed.

(** X4. The three lookups change no registration, however they end:
    after newInstance, registeredTypes or isTypeRegistered every interface's
    table and every recorded identifier are what they were. *)
Theorem lookups_leave_registrations Itf typeId s :
  (∀ J, table J (snd (newInstance Itf typeId s)) = table J s ∧
        table J (snd (registeredTypes Itf s)) = table J s ∧
        table J (snd (isTypeRegistered Itf typeId s)) = table J s) ∧
  (∀ T J, recorded_id T J (snd (newInstance Itf typeId s)) = recorded_id T J s ∧
          recorded_id T J (snd (registeredTypes Itf s)) = recorded_id T J s ∧
          recorded_id T J (snd (isTypeRegistered Itf typeId s)) = recorded_id T J s).
Proof.
  destruct (newInstance_storage Itf typeId s) as [Hd Hc].
  rewrite registeredTypes_state, isTypeRegistered_state. split.
  - intros J. rewrite (table_ext J _ _ Hd Hc), registry_table. done.
  - intros T J. rewrite (recorded_ext T J _ _ Hd Hc), registry_recorded. done.
Qed.

Lemma updates_client P s s' :
  (∀ l, P l → l ≠ LClient) → updates P s s' → client s' = client s.
Proof.
  intros HP. induction 1 as [|s s1 s2 (l & Hl & Hu) _ IH]; [done|].
  rewrite IH. eapply update_client; eauto.
Qed.

Lemma quiet_step op :
  ¬ runs_client_code op → traces (λ l, l ≠ LClient) (step op).
Proof.
  intros Hq. destruct op as [C V| | | | | | |]; simpl in *;
    try (by destruct Hq); unfold discard.
  - apply traces_bind; [|intros; apply traces_ret]. by apply traces_value.
  - by apply registerType_traces.
  - apply traces_bind; [|intros; apply traces_ret].
    unfold registeredTypes. apply with_registry_traces; try done.
    intros; apply traces_ret.
  - apply traces_bind; [|intros; apply traces_ret].
    unfold isTypeRegistered. apply with_registry_traces; try done.
    intros; apply traces_ret.
  - by apply Registrator_traces.
  - apply traces_bind; [|intros; apply traces_ret]. by apply staticTypeId_traces.
Qed.

(** X5. Registration and introspection reach no client code: registerType,
    registeredTypes, isTypeRegistered, a Registrator, staticTypeId, and
    value() at the library's own two value types, leave the client state as
    it is; no constructor runs and no instance is created. *)
Theorem registration_runs_no_client_code op s :
  ¬ runs_client_code op → client (snd (step op s)) = client s.
Proof.
  intros Hq. apply (updates_client (λ l, l ≠ LClient)); [done|].
  by apply quiet_step.
Qed.

(** X6. newInstance for an identifier registered with the generator of
    FactoryMixin<T, _> leaves the storage alone and is T's constructor, the
    client state being what the constructor leaves: when that returns, the
    result is a non-null pointer to an object of dynamic type T; when it
    raises, the exception comes out of newInstance and no object is added. *)
Theorem newInstance_constructs_implementation Itf typeId T J s :
  table Itf s !! typeId = Some (MixinNewInstance T J) →
  m_data (snd (newInstance Itf typeId s)) = m_data s ∧
  cells (snd (newInstance Itf typeId s)) = cells s ∧
  world (client (snd (newInstance Itf typeId s)))
    = snd (construct T (world (client s))) ∧
  match fst (construct T (world (client s))) with
  | Returned _ =>
      ∃ a, fst (newInstance Itf typeId s) = Ret (Some a) ∧
           objects (client (snd (newInstance Itf typeId s))) !! a = Some T
  | Raised e =>
      fst (newInstance Itf typeId s) = Throw (ClientExn e) ∧
      objects (client (snd (newInstance Itf typeId s))) = objects (client s)
  end.
Proof.
  intros Htab. rewrite (newInstance_mixin_eval _ _ _ _ _ Htab).
  unfold make_shared.
  destruct (construct T (world (client s))) as [[[]|e] w] eqn:Hctor; cbn [fst snd].
  - split; [done|]. split; [done|]. split; [done|].
    exists (length (objects (client s))). split; [done|].
    simpl. by rewrite lookup_app_r, Nat.sub_diag by lia.
  - done.
Qed.

Lemma string_compare_le_trans a b c :
  String.compare a b ≠ Gt → String.compare b c ≠ Gt → String.compare a c ≠ Gt.
Proof.
  revert b c. induction a as [|x a IH]; intros [|y b] [|z c]; simpl; try done.
  intros Hab Hbc.
  destruct (Ascii.compare x y) eqn:Hxy; [| |done].
  - apply Ascii.compare_eq_iff in Hxy as ->.
    destruct (Ascii.compare y z); [by eapply IH|done|done].
  - destruct (Ascii.compare y z) eqn:Hyz; [| |done].
    + apply Ascii.compare_eq_iff in Hyz as ->. by rewrite Hxy.
    + unfold Ascii.compare in *. rewrite N.compare_lt_iff in Hxy, Hyz.
      rewrite (proj2 (N.compare_lt_iff _ _)); [done|]. by etrans.
Qed.

#[local] Instance string_leb_total : Total (λ a b : string, String.leb a b).
Proof.
  intros a b. destruct (String.leb_total a b) as [H|H]; rewrite H; [by left|by right].
Qed.

#[local] Instance string_leb_trans : Transitive (λ a b : string, String.leb a b).
Proof.
  intros a b c. unfold String.leb. intros Hab Hbc.
  pose proof (string_compare_le_trans a b c) as H.
  destruct (String.compare a b), (String.compare b c), (String.compare a c);
    try done; by destruct H.
Qed.

(** X7. registeredTypes() lists the identifiers in ascending order of
    std::string comparison, every earlier one below every later one, whatever
    the order they were registered in. *)
Theorem registeredTypes_ascending Itf s :
  registry_ok Itf s →
  ∃ l, fst (registeredTypes Itf s) = Ret l ∧
       StronglySorted (λ a b : string, String.leb a b) l.
Proof.
  intros Hok. exists (keys_in_order (table Itf s)).
  split; [by rewrite registeredTypes_eval|].
  unfold keys_in_order. apply StronglySorted_merge_sort; apply _.
Qed.

(** X8. With assertions compiled in, a Registrator given an identifier that
    is taken ends in the failed assertion of registerType before its second
    statement: nothing is registered and the identifier recorded for its
    implementation is not assigned. *)
Theorem Registrator_duplicate_asserts T Itf typeId s :
  NDEBUG = false →
  registry_ok Itf s →
  is_Some (table Itf s !! typeId) →
  Registrator T Itf typeId s = (Abort, s).
Proof.
  intros Hdebug Hok Hin. unfold Registrator, bind.
  by rewrite (registerType_duplicate_eval _ _ _ _ Hdebug Hok Hin).
Qed.

(** ** Invariants of the storage over runs *)

Lemma update_count l s s' :
  update l s s' →
  length (cells s) = size (default ∅ (m_data s)) →
  length (cells s') = size (default ∅ (m_data s')).
Proof.
  destruct 1 as [s Hd|s d key V Hd Hk| | |]; simpl;
    rewrite ?length_insert; try done.
  - by rewrite Hd.
  - rewrite Hd. simpl. intros Hlen.
    rewrite length_app, map_size_insert_None by done. simpl. lia.
Qed.

(** X9. In every run of the library from program start the storage map is
    sound: every pointer it holds is the address of an allocated cell, no
    two keys share a cell, and there are exactly as many cells as keys (no
    cell is allocated that the map does not hold). *)
Theorem storage_map_sound ops w :
  (∀ k p, lookup_key k (snd (run ops (init w))) = Some p →
          is_Some (cells (snd (run ops (init w))) !! p)) ∧
  (∀ k k' p, lookup_key k (snd (run ops (init w))) = Some p →
             lookup_key k' (snd (run ops (init w))) = Some p → k = k') ∧
  length (cells (snd (run ops (init w))))
    = size (default ∅ (m_data (snd (run ops (init w))))).
Proof.
  destruct (run_wf ops w) as [Hv Hi].
  split; [|split; [exact Hi|]].
  - intros k p Hp. apply lookup_lt_is_Some_2. by eapply Hv.
  - eapply (updates_invariant _
      (λ s, length (cells s) = size (default ∅ (m_data s))));
      [|apply run_updates|apply init_wf|done].
    intros l s s' _ Hu _. by apply (update_count l).
Qed.

(** X10. In every state a run reaches, two pairs are given the same cell by
    value() exactly when their keys, built from the type names, are the same
    string. *)
Theorem same_cell_iff_same_key C V C' V' ops w :
  ∃ p q,
    fst (value C V (snd (run ops (init w)))) = Ret p ∧
    fst (value C' V' (snd (value C V (snd (run ops (init w)))))) = Ret q ∧
    (p = q ↔ storage_key C V = storage_key C' V').
Proof.
  set (s := snd (run ops (init w))).
  destruct (value_returns C V s) as (p & Hp & Hap).
  destruct (value_returns C' V' (snd (value C V s))) as (q & Hq & Haq).
  exists p, q. split; [done|]. split; [done|].
  assert (wf (snd (value C' V' (snd (value C V s))))) as [_ Hinj].
  { eapply (updates_wf (λ _, True)); [apply traces_value; done|].
    eapply (updates_wf (λ _, True)); [apply traces_value; done|].
    apply run_wf. }
  assert (cell_addr C V (snd (value C' V' (snd (value C V s)))) = Some p) as Hap'.
  { eapply (updates_lookup_key (λ _, True)); [apply traces_value; done|exact Hap]. }
  unfold cell_addr in *. split.
  - intros <-. by eapply Hinj.
  - intros Hk. rewrite Hk in Hap'. congruence.
Qed.

(** ** Runs of the library under unique storage keys *)

Section UniqueKeys.

(** Modelled from the spec: typeid(T).name() is supplied by the compiler and
    is no part of the repository.  The data model of the specification
    (section 3, StorageKey) takes the key computed from the two type names to
    be unique per (owner type, value type) pair. *)
Hypothesis keys_unique :
  ∀ C V C' V', storage_key C V = storage_key C' V' → C = C' ∧ V = V'.

Lemma is_a_default V : is_a V (default_construct V).
Proof. destruct V; simpl; auto. Qed.

Lemma update_typed l s s' :
  (∃ op, allowed op l) → update l s s' → wf s → typed s → typed s'.
Proof.
  intros [op Hl] Hu Hwf Ht C V c Hc.
  pose proof (update_change l s s' (storage_key C V) Hu Hwf) as Hch.
  unfold cell_of in Hc. rewrite Hc in Hch.
  inversion Hch as [l' k c' Hsame|k V0|k Itf id g t|k id old]; subst; simpl in *.
  - by apply (Ht C V).
  - destruct Hl as [C0 Hk]. apply keys_unique in Hk as [_ ->].
    apply is_a_default.
  - destruct Hl as [Hk _]. by apply keys_unique in Hk as [_ ->].
  - destruct Hl as (T & Itf & Hk & _). by apply keys_unique in Hk as [_ ->].
Qed.

Lemma init_typed w : typed (init w).
Proof. intros C V c. discriminate. Qed.

Lemma updates_typed P s s' :
  (∀ l, P l → ∃ op, allowed op l) →
  updates P s s' → wf s → typed s → typed s'.
Proof.
  intros HP. apply updates_invariant.
  intros l s1 s2 Hl Hu. apply (update_typed l); auto.
Qed.

Lemma step_typed op s : wf s → typed s → typed (snd (step op s)).
Proof.
  apply (updates_typed (allowed op)); [eauto | apply step_updates].
Qed.

Lemma step_wf op s : wf s → wf (snd (step op s)).
Proof. apply (updates_wf (allowed op)), step_updates. Qed.

Lemma run_typed ops w : typed (snd (run ops (init w))).
Proof.
  eapply updates_typed; [|apply run_updates|apply init_wf|apply init_typed].
  intros l (op & _ & Hl). eauto.
Qed.

Lemma typed_registry_ok Itf s : wf s → typed s → registry_ok Itf s.
Proof.
  intros [Hv _] Ht. unfold registry_ok.
  destruct (cell_addr (Factory Itf) (Registry Itf) s) as [p|] eqn:Ha; [|done].
  destruct (lookup_lt_is_Some_2 (cells s) p) as [c Hc]; [by eapply Hv|].
  specialize (Ht (Factory Itf) (Registry Itf) c).
  unfold cell_of, cell_at in Ht. unfold cell_addr in Ha. rewrite Ha in Ht.
  specialize (Ht Hc). destruct c as [J t| |]; simpl in Ht.
  - injection Ht as <-. eauto.
  - discriminate.
  - destruct Ht as [<- Hd]. discriminate.
Qed.

Lemma typed_recorded_ok T Itf s : wf s → typed s → recorded_ok T Itf s.
Proof.
  intros [Hv _] Ht. unfold recorded_ok.
  destruct (cell_addr (FactoryMixin T Itf) StdString s) as [p|] eqn:Ha; [|done].
  destruct (lookup_lt_is_Some_2 (cells s) p) as [c Hc]; [by eapply Hv|].
  specialize (Ht (FactoryMixin T Itf) StdString c).
  unfold cell_of, cell_at in Ht. unfold cell_addr in Ha. rewrite Ha in Ht.
  specialize (Ht Hc). destruct c as [J t| |]; simpl in Ht.
  - discriminate.
  - eauto.
  - destruct Ht as [<- Hd]. discriminate.
Qed.


(** Every state a run reaches has the cells the single-call theorems ask
    for. *)
Lemma run_registry_ok ops w Itf : registry_ok Itf (snd (run ops (init w))).
Proof. apply typed_registry_ok; [apply run_wf | apply run_typed]. Qed.

Lemma run_recorded_ok ops w T Itf : recorded_ok T Itf (snd (run ops (init w))).
Proof. apply typed_recorded_ok; [apply run_wf | apply run_typed]. Qed.

(** Transitions that do not assign into the table of an interface leave
    the table as it is. *)
Lemma table_frame P Itf s s' :
  (∀ l, P l → ∃ op, allowed op l) →
  (∀ id g, ¬ P (LTable (storage_key (Factory Itf) (Registry Itf)) Itf id g)) →
  updates P s s' → wf s → table Itf s' = table Itf s.
Proof.
  intros HP Hno Hups Hwf.
  apply (updates_invariant P (λ s1, table Itf s1 = table Itf s) ) with (s := s);
    [|done|done|done].
  intros l s1 s2 Hl Hu Hwf1 <-. unfold table, cell_of.
  pose proof (update_change l s1 s2 (storage_key (Factory Itf) (Registry Itf)) Hu Hwf1)
    as Hch.
  destruct (HP l Hl) as [op Hop].
  inversion Hch as [l' k c' Hsame|k V0 Hk0|k J id g t Hk0|k id old Hk0];
    subst; simpl in *.
  - done.
  - destruct Hop as [C0 Hk]. apply keys_unique in Hk as [_ <-]. simpl.
    by rewrite decide_True.
  - destruct Hop as [Hk _]. apply keys_unique in Hk as [[= <-] _].
    by destruct (Hno id g).
  - done.
Qed.

Lemma Registrator_registered T Itf X s :
  wf s → typed s →
  fst (Registrator T Itf X s) = Ret tt →
  registered_as T Itf X (snd (Registrator T Itf X s)).
Proof.
  intros Hwf Ht Hret.
  pose proof (step_wf (ORegisterType Itf X (MixinNewInstance T Itf)) s Hwf) as Hwfa.
  pose proof (step_typed (ORegisterType Itf X (MixinNewInstance T Itf)) s Hwf Ht) as Hta.
  simpl in Hwfa, Hta.
  destruct (registerType_eval Itf X (MixinNewInstance T Itf) s)
    as (p & Hp & Hcp & Heq); [by apply typed_registry_ok|].
  destruct (record_eval T Itf X (snd (registerType Itf X (MixinNewInstance T Itf) s)))
    as (sb & Htail & Hrec); [by apply typed_recorded_ok|].
  pose proof (record_traces
    (λ l, l = LMap ∨ l = LCell (storage_key (FactoryMixin T Itf) StdString) StdString
          ∨ l = LString (storage_key (FactoryMixin T Itf) StdString) X)
    T Itf X (or_introl eq_refl) (or_intror (or_introl eq_refl))
    (or_intror (or_intror eq_refl))
    (snd (registerType Itf X (MixinNewInstance T Itf) s))) as Hups.
  rewrite Htail in Hups. simpl in Hups.
  assert (table Itf sb = table Itf (snd (registerType Itf X (MixinNewInstance T Itf) s)))
    as Htab.
  { eapply table_frame; [| |exact Hups|exact Hwfa].
    - intros l [-> | [-> | ->]].
      + by exists (OValue StdString StdString).
      + exists (OValue StdString StdString). simpl. eauto.
      + exists (ORegistrator T Itf X). simpl. eauto.
    - intros id g [? | [? | ?]]; discriminate. }
  unfold Registrator in *. unfold bind at 1 in Hret. unfold bind at 1.
  destruct (registerType Itf X (MixinNewInstance T Itf) s) as [[[]|e| |] sa] eqn:Hreg;
    simpl in *; try discriminate.
  rewrite Htail. simpl. split; [|exact Hrec].
  rewrite Htab.
  destruct (NDEBUG || bool_decide (table Itf s !! X = None)); [|discriminate].
  injection Heq as ->.
  erewrite (table_cell Itf _ p); [apply lookup_insert_eq|exact Hp|].
  simpl. apply list_lookup_insert_eq. by eapply lookup_lt_Some.
Qed.



(** ** Further properties of runs *)

Lemma recorded_kept P T Itf X s s' :
  (∀ id, P (LString (storage_key (FactoryMixin T Itf) StdString) id) → id = X) →
  updates P s s' → wf s →
  recorded_id T Itf s = Some X → recorded_id T Itf s' = Some X.
Proof.
  intros HS. apply (updates_invariant P (λ s1, recorded_id T Itf s1 = Some X)).
  intros l s1 s2 Hl Hu Hwf Hrec.
  apply recorded_Some_cell in Hrec.
  pose proof (update_change l s1 s2 (storage_key (FactoryMixin T Itf) StdString) Hu Hwf)
    as Hch.
  rewrite Hrec in Hch. unfold recorded_id, cell_of.
  apply change_Some in Hch
    as [-> | [(J & id & g & t' & _ & [=] & _) | (id & old & -> & _ & ->)]];
    [done|].
  f_equal. by apply HS.
Qed.

(** X11. staticTypeId() reports the identifier of the latest Registrator:
    once a Registrator of (T, I) has been constructed with X, and over any
    later calls of the library among which no Registrator of (T, I) carries
    another identifier, T::staticTypeId() returns X and changes nothing. *)
Theorem staticTypeId_reports_last_Registrator T Itf X ops0 ops w :
  fst (Registrator T Itf X (snd (run ops0 (init w)))) = Ret tt →
  (∀ id, ORegistrator T Itf id ∈ ops → id = X) →
  staticTypeId T Itf
    (snd (run ops (snd (Registrator T Itf X (snd (run ops0 (init w)))))))
  = (Ret X, snd (run ops (snd (Registrator T Itf X (snd (run ops0 (init w))))))).
Proof.
  intros Hret Hsame.
  pose proof (run_wf ops0 w) as Hwf0. pose proof (run_typed ops0 w) as Ht0.
  destruct (Registrator_registered T Itf X _ Hwf0 Ht0 Hret) as [_ Hrec].
  pose proof (step_wf (ORegistrator T Itf X) _ Hwf0) as Hwf1. simpl in Hwf1.
  apply (virtual_typeId_recorded T Itf _ X).
  eapply recorded_kept; [|apply run_updates|exact Hwf1|exact Hrec].
  intros id (op & Hin & T' & J & Hk & ->).
  apply keys_unique in Hk as [[= <- <-] _]. by apply Hsame.
Qed.

Lemma discard_ends_defined {A} (m : M A) s :
  ends_defined (fst (m s)) → ends_defined (fst (discard m s)).
Proof. unfold discard, bind, ret. by destruct (m s) as [[a|e| |] s']. Qed.

Lemma step_ends_defined op s :
  wf s → typed s → ¬ passes_pointer op → ends_defined (fst (step op s)).
Proof.
  intros Hwf Ht Hptr. destruct op as [C V|Itf id g|Itf id|Itf|Itf id|T Itf id|T Itf|Itf o];
    simpl.
  - apply discard_ends_defined.
    by destruct (value_returns C V s) as (p & -> & _).
  - destruct (registerType_eval Itf id g s) as (p & _ & _ & ->);
      [by apply typed_registry_ok|].
    destruct NDEBUG eqn:Hn; simpl; [done|].
    by destruct (bool_decide (table Itf s !! id = None)).
  - apply discard_ends_defined.
    rewrite newInstance_eval by (by apply typed_registry_ok).
    destruct (table Itf s !! id); [apply invoke_ends_defined|done].
  - apply discard_ends_defined.
    by rewrite registeredTypes_eval by (by apply typed_registry_ok).
  - apply discard_ends_defined.
    by rewrite isTypeRegistered_eval by (by apply typed_registry_ok).
  - pose proof (step_wf (ORegisterType Itf id (MixinNewInstance T Itf)) s Hwf) as Hwfa.
    pose proof (step_typed (ORegisterType Itf id (MixinNewInstance T Itf)) s Hwf Ht)
      as Hta.
    simpl in Hwfa, Hta.
    destruct (record_eval T Itf id (snd (registerType Itf id (MixinNewInstance T Itf) s)))
      as (sb & Htail & _); [by apply typed_recorded_ok|].
    destruct (registerType_eval Itf id (MixinNewInstance T Itf) s)
      as (p & _ & _ & Heq); [by apply typed_registry_ok|].
    unfold Registrator. unfold bind at 1.
    destruct (registerType Itf id (MixinNewInstance T Itf) s) as [[[]|e| |] sa];
      simpl in *.
    + by rewrite Htail.
    + done.
    + destruct NDEBUG eqn:Hn; simpl in Heq; [done|].
      by destruct (bool_decide (table Itf s !! id = None)).
    + destruct NDEBUG eqn:Hn; simpl in Heq; [done|].
      by destruct (bool_decide (table Itf s !! id = None)).
  - apply discard_ends_defined.
    destruct (staticTypeId_eval T Itf s) as [-> _]; [by apply typed_recorded_ok|done].
  - destruct o as [a|]; [by destruct Hptr|done].
Qed.

Lemma run_ends_defined ops s :
  wf s → typed s → (∀ op, op ∈ ops → ¬ passes_pointer op) →
  fst (run ops s) = Ret tt ∨ (NDEBUG = false ∧ fst (run ops s) = Abort).
Proof.
  revert s. induction ops as [|op ops IH]; intros s Hwf Ht Hptr; simpl; [by left|].
  pose proof (step_ends_defined op s Hwf Ht (Hptr op (list_elem_of_here _ _))) as Hd.
  pose proof (step_wf op s Hwf) as Hwf'.
  pose proof (step_typed op s Hwf Ht) as Ht'.
  assert (∀ op', op' ∈ ops → ¬ passes_pointer op') as Hptr'.
  { intros op' Hin. apply Hptr. by right. }
  destruct (step op s) as [[[]|e| |] s']; simpl in *; auto.
  done.
Qed.

(** X12. Under unique storage keys no run of the library from program start
    leaves defined behaviour, the client passing no object pointer of its
    own: every reference value() hands out is used at the type its cell was
    created with, a run ends normally or in the assertion of registerType,
    and with NDEBUG it always ends normally. *)
Theorem runs_are_defined ops w :
  (∀ op, op ∈ ops → ¬ passes_pointer op) →
  fst (run ops (init w)) = Ret tt ∨
  (NDEBUG = false ∧ fst (run ops (init w)) = Abort).
Proof. apply run_ends_defined; [apply init_wf | apply init_typed]. Qed.

(** X13. An ImplementationRegistrator that is constructed registers its
    implementation under the identifier of the ImplementationTypeTraits:
    afterwards staticTypeId() returns that identifier, isTypeRegistered
    answers true for it, and newInstance for it is
    FactoryMixin<T, I>::newInstance. *)
Theorem ImplementationRegistrator_registers_trait_id Impl T Itf ops w :
  fst (ImplementationRegistrator Impl T Itf (snd (run ops (init w)))) = Ret tt →
  staticTypeId T Itf (snd (ImplementationRegistrator Impl T Itf (snd (run ops (init w)))))
    = (Ret (ImplementationTypeTraits_typeId Impl),
       snd (ImplementationRegistrator Impl T Itf (snd (run ops (init w))))) ∧
  fst (isTypeRegistered Itf (ImplementationTypeTraits_typeId Impl)
         (snd (ImplementationRegistrator Impl T Itf (snd (run ops (init w))))))
    = Ret true ∧
  newInstance Itf (ImplementationTypeTraits_typeId Impl)
    (snd (ImplementationRegistrator Impl T Itf (snd (run ops (init w)))))
    = FactoryMixin_newInstance T Itf
        (snd (ImplementationRegistrator Impl T Itf (snd (run ops (init w))))).
Proof.
  unfold ImplementationRegistrator. intros Hret.
  destruct (Registrator_registered T Itf _ _ (run_wf ops w) (run_typed ops w) Hret)
    as [Htab Hrec].
  split; [by apply (virtual_typeId_recorded T Itf)|]. split.
  - rewrite isTypeRegistered_eval, Htab by (by eapply table_Some_registry_ok).
    done.
  - by apply (newInstance_mixin_eval _ _ T Itf).
Qed.

Lemma change_cases l k c c' :
  change l k c c' →
  c' = c ∨ (∃ V, l = LCell k V) ∨ (∃ Itf id g, l = LTable k Itf id g) ∨
  (∃ id, l = LString k id).
Proof. destruct 1; eauto 10. Qed.

Lemma key_frame P k s s' :
  (∀ V, ¬ P (LCell k V)) →
  (∀ Itf id g, ¬ P (LTable k Itf id g)) →
  (∀ id, ¬ P (LString k id)) →
  updates P s s' → wf s → cell_at k s' = cell_at k s.
Proof.
  intros HC HT HS Hups Hwf.
  apply (updates_invariant P (λ s1, cell_at k s1 = cell_at k s)) with (s := s);
    [|done|done|done].
  intros l s1 s2 Hl Hu Hwf1 <-.
  destruct (change_cases _ _ _ _ (update_change l s1 s2 k Hu Hwf1))
    as [-> | [[V ->] | [(J & id & g & ->) | [id ->]]]]; [done|..].
  - by destruct (HC V).
  - by destruct (HT J id g).
  - by destruct (HS id).
Qed.

Lemma Registrator_frame T Itf typeId s C V :
  wf s →
  (C, V) ≠ (Factory Itf, Registry Itf) →
  (C, V) ≠ (FactoryMixin T Itf, StdString) →
  cell_at (storage_key C V) (snd (Registrator T Itf typeId s))
  = cell_at (storage_key C V) s.
Proof.
  intros Hwf Hne1 Hne2.
  set (P := λ l,
    l = LMap ∨
    l = LCell (storage_key (Factory Itf) (Registry Itf)) (Registry Itf) ∨
    l = LTable (storage_key (Factory Itf) (Registry Itf)) Itf typeId
          (MixinNewInstance T Itf) ∨
    l = LCell (storage_key (FactoryMixin T Itf) StdString) StdString ∨
    l = LString (storage_key (FactoryMixin T Itf) StdString) typeId).
  assert (updates P s (snd (Registrator T Itf typeId s))) as Hups.
  { apply Registrator_traces; unfold P; auto 10. }
  apply (key_frame P); [| | |exact Hups|exact Hwf].
  - intros V0 [?|[Hl|[?|[Hl|?]]]]; try discriminate;
      injection Hl as Hk _; apply keys_unique in Hk as [-> ->]; done.
  - intros J id g [?|[?|[Hl|[?|?]]]]; try discriminate.
    injection Hl as Hk _ _ _. apply keys_unique in Hk as [-> ->]. done.
  - intros id [?|[?|[?|[?|Hl]]]]; try discriminate.
    injection Hl as Hk _. apply keys_unique in Hk as [-> ->]. done.
Qed.

(** X14. A Registrator touches the two cells of its own pair only: in every
    state a run reaches, constructing the Registrator of (T, I) leaves the
    table of every other interface and the identifier recorded for every
    other implementation as they were. *)
Theorem Registrator_touches_own_cells T Itf typeId ops w :
  (∀ J, J ≠ Itf →
        table J (snd (Registrator T Itf typeId (snd (run ops (init w)))))
        = table J (snd (run ops (init w)))) ∧
  (∀ T' J, (T', J) ≠ (T, Itf) →
           recorded_id T' J (snd (Registrator T Itf typeId (snd (run ops (init w)))))
           = recorded_id T' J (snd (run ops (init w)))).
Proof.
  split.
  - intros J HJ. unfold table, cell_of.
    rewrite Registrator_frame; [done|apply run_wf| |done].
    intros [= ->]. done.
  - intros T' J HTJ. unfold recorded_id, cell_of.
    rewrite Registrator_frame; [done|apply run_wf|done|].
    intros [= -> ->]. done.
Qed.

Lemma Registrator_returns T Itf typeId s :
  wf s → typed s →
  NDEBUG = true ∨ table Itf s !! typeId = None →
  fst (Registrator T Itf typeId s) = Ret tt.
Proof.
  intros Hwf Ht Hfree.
  pose proof (step_wf (ORegisterType Itf typeId (MixinNewInstance T Itf)) s Hwf) as Hwfa.
  pose proof (step_typed (ORegisterType Itf typeId (MixinNewInstance T Itf)) s Hwf Ht)
    as Hta.
  simpl in Hwfa, Hta.
  destruct (record_eval T Itf typeId
              (snd (registerType Itf typeId (MixinNewInstance T Itf) s)))
    as (sb & Htail & _); [by apply typed_recorded_ok|].
  destruct (registerType_done Itf typeId (MixinNewInstance T Itf) s)
    as (p & _ & _ & Heq); [by apply typed_registry_ok|done|].
  unfold Registrator. unfold bind at 1. rewrite Heq in *. cbn [snd] in Htail.
  by rewrite Htail.
Qed.

(** X15. In every state a run reaches, a Registrator whose identifier is new
    to the interface's table (or any Registrator, with NDEBUG) is constructed
    normally, after which isTypeRegistered answers true for the identifier,
    staticTypeId() of the implementation returns it, and newInstance for it
    is FactoryMixin<T, I>::newInstance. *)
Theorem Registrator_registers T Itf typeId ops w :
  NDEBUG = true ∨ table Itf (snd (run ops (init w))) !! typeId = None →
  fst (Registrator T Itf typeId (snd (run ops (init w)))) = Ret tt ∧
  fst (isTypeRegistered Itf typeId
         (snd (Registrator T Itf typeId (snd (run ops (init w)))))) = Ret true ∧
  staticTypeId T Itf (snd (Registrator T Itf typeId (snd (run ops (init w)))))
    = (Ret typeId, snd (Registrator T Itf typeId (snd (run ops (init w))))) ∧
  newInstance Itf typeId (snd (Registrator T Itf typeId (snd (run ops (init w)))))
    = FactoryMixin_newInstance T Itf
        (snd (Registrator T Itf typeId (snd (run ops (init w))))).
Proof.
  intros Hfree.
  pose proof (Registrator_returns T Itf typeId _ (run_wf ops w) (run_typed ops w) Hfree)
    as Hret.
  destruct (Registrator_registered T Itf _ _ (run_wf ops w) (run_typed ops w) Hret)
    as [Htab Hrec].
  split; [done|]. split; [|split].
  - rewrite isTypeRegistered_eval, Htab by (by eapply table_Some_registry_ok).
    done.
  - by apply (virtual_typeId_recorded T Itf).
  - by apply (newInstance_mixin_eval _ _ T Itf).
Qed.

(** X16. With NDEBUG, the Registrator of a second implementation given an
    identifier that a first one holds is constructed normally and takes the
    identifier over: newInstance for it then constructs the second
    implementation, while staticTypeId() of the first still returns the
    identifier. *)
Theorem second_implementation_takes_identifier T1 T2 Itf typeId ops w :
  NDEBUG = true →
  T1 ≠ T2 →
  let s1 := snd (Registrator T1 Itf typeId (snd (run ops (init w)))) in
  let s2 := snd (Registrator T2 Itf typeId s1) in
  fst (Registrator T1 Itf typeId (snd (run ops (init w)))) = Ret tt ∧
  fst (Registrator T2 Itf typeId s1) = Ret tt ∧
  newInstance Itf typeId s2 = FactoryMixin_newInstance T2 Itf s2 ∧
  staticTypeId T1 Itf s2 = (Ret typeId, s2) ∧
  staticTypeId T2 Itf s2 = (Ret typeId, s2).
Proof.
  intros Hn Hne s1 s2.
  pose proof (run_wf ops w) as Hwf0. pose proof (run_typed ops w) as Ht0.
  pose proof (Registrator_returns T1 Itf typeId _ Hwf0 Ht0 (or_introl Hn)) as Hret1.
  destruct (Registrator_registered T1 Itf _ _ Hwf0 Ht0 Hret1) as [_ Hrec1].
  pose proof (step_wf (ORegistrator T1 Itf typeId) _ Hwf0) as Hwf1.
  pose proof (step_typed (ORegistrator T1 Itf typeId) _ Hwf0 Ht0) as Ht1.
  simpl in Hwf1, Ht1. fold s1 in Hwf1, Ht1, Hrec1.
  pose proof (Registrator_returns T2 Itf typeId _ Hwf1 Ht1 (or_introl Hn)) as Hret2.
  destruct (Registrator_registered T2 Itf _ _ Hwf1 Ht1 Hret2) as [Htab2 Hrec2].
  fold s2 in Htab2, Hrec2.
  split; [done|]. split; [done|]. split; [|split].
  - by apply (newInstance_mixin_eval _ _ T2 Itf).
  - apply (virtual_typeId_recorded T1 Itf). rewrite <- Hrec1.
    unfold recorded_id, cell_of. subst s2.
    rewrite Registrator_frame; [done|done|done|].
    intros [= ->]. done.
  - by apply (virtual_typeId_recorded T2 Itf).
Qed.

End UniqueKeys.

(** ** Two registries under different keys *)

Lemma registerType_Ret_ok Itf typeId g s :
  fst (registerType Itf typeId g s) = Ret tt → registry_ok Itf s.
Proof.
  unfold registry_ok.
  destruct (cell_addr (Factory Itf) (Registry Itf) s) as [p|] eqn:Ha; [|done].
  unfold registerType, registry, bind. rewrite (value_present _ _ _ _ Ha).
  unfold table_at.
  destruct (cells s !! p) as [[J t| |]|]; try done.
  destruct (decide (J = Itf)) as [->|]; [eauto|done].
Qed.

Lemma registerType_key_frame Itf typeId g s k :
  wf s → k ≠ storage_key (Factory Itf) (Registry Itf) →
  cell_at k (snd (registerType Itf typeId g s)) = cell_at k s.
Proof.
  intros Hwf Hk.
  set (P := λ l,
    l = LMap ∨
    l = LCell (storage_key (Factory Itf) (Registry Itf)) (Registry Itf) ∨
    l = LTable (storage_key (Factory Itf) (Registry Itf)) Itf typeId g).
  apply (key_frame P); [| | | |exact Hwf].
  - intros V [?|[Hl|?]]; try discriminate. injection Hl as -> _. done.
  - intros J id g' [?|[?|Hl]]; try discriminate. injection Hl as -> _. done.
  - intros id [?|[?|?]]; discriminate.
  - apply registerType_traces; unfold P; auto.
Qed.

Lemma registry_ok_frame Itf s s' :
  wf s' →
  cell_at (storage_key (Factory Itf) (Registry Itf)) s'
  = cell_at (storage_key (Factory Itf) (Registry Itf)) s →
  registry_ok Itf s → registry_ok Itf s'.
Proof.
  intros [Hv _] Heq Hok. unfold registry_ok, cell_addr in *.
  destruct (lookup_key (storage_key (Factory Itf) (Registry Itf)) s')
    as [p'|] eqn:Hp'; [|done].
  destruct (lookup_lt_is_Some_2 (cells s') p') as [c Hc]; [by eapply Hv|].
  unfold cell_at in Heq. rewrite Hp' in Heq. simpl in Heq. rewrite Hc in Heq.
  destruct (lookup_key (storage_key (Factory Itf) (Registry Itf)) s)
    as [p|]; [|done].
  simpl in Heq. destruct Hok as [t Ht]. rewrite Ht in Heq.
  injection Heq as ->. eauto.
Qed.

(** C5, as amended.  In every state reached by a run of the library, for two
    interfaces A and B whose registries have different storage keys, B's
    registry cell being absent or holding B's table: once an identifier is
    registered in A's table, the same identifier, when not in B's table,
    registers in B's table as well; the two tables live in cells at
    different addresses; each table gains its own entry and is untouched by
    the other registration; and newInstance on either interface calls the
    generator registered for that interface. *)
Theorem registries_under_different_keys_are_isolated A B X gA gB ops w :
  storage_key (Factory A) (Registry A) ≠ storage_key (Factory B) (Registry B) →
  fst (registerType A X gA (snd (run ops (init w)))) = Ret tt →
  registry_ok B (snd (run ops (init w))) →
  table B (snd (run ops (init w))) !! X = None →
  let s := snd (run ops (init w)) in
  let s1 := snd (registerType A X gA s) in
  let s2 := snd (registerType B X gB s1) in
  fst (registerType B X gB s1) = Ret tt ∧
  (∃ p q, cell_addr (Factory A) (Registry A) s2 = Some p ∧
          cell_addr (Factory B) (Registry B) s2 = Some q ∧ p ≠ q) ∧
  table A s1 = <[X := gA]> (table A s) ∧ table B s1 = table B s ∧
  table A s2 = <[X := gA]> (table A s) ∧ table B s2 = <[X := gB]> (table B s) ∧
  newInstance A X s2 = invoke gA s2 ∧
  newInstance B X s2 = invoke gB s2.
Proof.
  intros Hkeys HretA HokB HabsB s s1 s2.
  pose proof (run_wf ops w) as Hwf. fold s in Hwf, HretA, HokB, HabsB.
  pose proof (registerType_Ret_ok A X gA s HretA) as HokA.
  assert (wf s1) as Hwf1.
  { apply (updates_wf (allowed (ORegisterType A X gA)) s);
      [apply (step_updates (ORegisterType A X gA))|exact Hwf]. }
  assert (wf s2) as Hwf2.
  { apply (updates_wf (allowed (ORegisterType B X gB)) s1);
      [apply (step_updates (ORegisterType B X gB))|exact Hwf1]. }
  (* the registration in A *)
  destruct (registerType_eval A X gA s HokA) as (p & Hp & Hcp & HeqA).
  assert (cell_addr (Factory A) (Registry A) s1 = Some p ∧
          table A s1 = <[X := gA]> (table A s)) as [Hp1 HtA1].
  { subst s1. rewrite HeqA in HretA |- *.
    destruct (NDEBUG || bool_decide (table A s !! X = None)); [|done].
    simpl. split; [exact Hp|].
    eapply table_cell; [exact Hp|]. simpl.
    apply list_lookup_insert_eq. by eapply lookup_lt_Some. }
  assert (cell_at (storage_key (Factory B) (Registry B)) s1
          = cell_at (storage_key (Factory B) (Registry B)) s) as HcB1.
  { apply registerType_key_frame; [exact Hwf|]. by intros Heq; apply Hkeys. }
  assert (table B s1 = table B s) as HtB1.
  { unfold table, cell_of. by rewrite HcB1. }
  assert (registry_ok B s1) as HokB1 by by eapply registry_ok_frame.
  (* the registration in B *)
  destruct (registerType_eval B X gB s1 HokB1) as (q & Hq & Hcq & HeqB).
  rewrite HtB1, HabsB, bool_decide_true, orb_true_r in HeqB by done.
  assert (cell_addr (Factory B) (Registry B) s2 = Some q ∧
          table B s2 = <[X := gB]> (table B s)) as [Hq2 HtB2].
  { subst s2. rewrite HeqB. simpl. split; [exact Hq|].
    eapply table_cell; [exact Hq|]. simpl.
    apply list_lookup_insert_eq. by eapply lookup_lt_Some. }
  assert (table A s2 = <[X := gA]> (table A s)) as HtA2.
  { rewrite <- HtA1. unfold table, cell_of, s2.
    by rewrite (registerType_key_frame B X gB s1 _ Hwf1 Hkeys). }
  assert (cell_addr (Factory A) (Registry A) s2 = Some p) as Hp2.
  { eapply updates_lookup_key; [apply (step_updates (ORegisterType B X gB))|exact Hp1]. }
  split; [by rewrite HeqB|].
  split.
  { exists p, q. split; [done|]. split; [done|]. intros ->.
    destruct Hwf2 as [_ Hinj]. apply Hkeys. by eapply Hinj. }
  split; [done|]. split; [done|]. split; [done|]. split; [done|].
  split.
  - rewrite newInstance_eval, HtA2, lookup_insert_eq, registry_present.
    + done.
    + by rewrite Hp2.
    + eapply table_Some_registry_ok. rewrite HtA2. apply lookup_insert_eq.
  - rewrite newInstance_eval, HtB2, lookup_insert_eq, registry_present.
    + done.
    + by rewrite Hq2.
    + eapply table_Some_registry_ok. rewrite HtB2. apply lookup_insert_eq.
Qed.

End Program.

(** ** The example naming identifies every pair *)

Local Arguments String.append !_ _ / : simpl nomatch.

Lemma string_app_assoc (a b c : string) : (a +:+ b) +:+ c = a +:+ (b +:+ c).
Proof. induction a as [|x a IH]; simpl; [done|]. by f_equal. Qed.

Lemma quote_prefix_free n n' r r' :
  quote n +:+ r = quote n' +:+ r' → n = n' ∧ r = r'.
Proof.
  revert n'. induction n as [|c n IH]; intros [|c' n']; simpl; intros H.
  - by injection H.
  - discriminate.
  - discriminate.
  - injection H as <- H. by destruct (IH _ H) as [<- <-].
Qed.

Lemma mangle_prefix_free t t' r r' :
  mangle t +:+ r = mangle t' +:+ r' → t = t' ∧ r = r'.
Proof.
  revert t' r r'.
  induction t as [n|i IH|i IH|t IHt i IHi|]; intros [n'|i'|i'|t' i'|] r r';
    simpl; intros H; try discriminate.
  - injection H as H. by destruct (quote_prefix_free _ _ _ _ H) as [<- <-].
  - injection H as H. by destruct (IH _ _ _ H) as [<- <-].
  - injection H as H. by destruct (IH _ _ _ H) as [<- <-].
  - injection H as H. rewrite !string_app_assoc in H.
    destruct (IHt _ _ _ H) as [<- H']. by destruct (IHi _ _ _ H') as [<- <-].
  - by injection H.
Qed.

Lemma mangle_keys_unique C V C' V' :
  storage_key mangle C V = storage_key mangle C' V' → C = C' ∧ V = V'.
Proof.
  unfold storage_key. intros H.
  destruct (mangle_prefix_free _ _ _ _ H) as [<- H']. split; [done|].
  simpl in H'. injection H' as H'.
  assert (mangle V +:+ "" = mangle V' +:+ "") as H'' by by rewrite H'.
  by destruct (mangle_prefix_free _ _ _ _ H'').
Qed.

(** ** The claims on the example program *)

Local Abbreviation Interface := (Class "Interface").
Local Abbreviation A := (Class "A").
Local Abbreviation B := (Class "B").
Local Abbreviation cout := (list string).

(** The example program with assertions compiled in, and with NDEBUG. *)
Local Abbreviation example_run ndebug :=
  (run mangle ndebug cout example_construct example_callable
       example_client_typeId example_final_overrider).

(** [CTM_FACTORY_REGISTER_TYPE(A, "A"); CTM_FACTORY_REGISTER_TYPE(B, "B");] *)
Local Abbreviation registered :=
  (snd (example_run false [ORegistrator A Interface "A"; ORegistrator B Interface "B"]
          (init cout []))).


Lemma registerType_duplicate_asserts_witness :
  registerType mangle false cout Interface "A" (Callable 0) registered
    = (Abort, registered) ∧
  rejects_duplicate mangle false cout Interface "A" (Callable 0) registered.
Proof.
  apply (registerType_duplicate_asserts mangle false cout Interface "A" (Callable 0)
           registered).
  - reflexivity.
  - vm_compute. eexists. reflexivity.
  - vm_compute. eexists. reflexivity.
Defined.

(** With NDEBUG the second registration of "A" returns normally and replaces
    the generator stored under "A". *)
Lemma duplicate_overwrites_under_NDEBUG :
  table mangle cout Interface
    (snd (example_run true [ORegistrator A Interface "A"] (init cout []))) !! "A"
    = Some (MixinNewInstance A Interface) ∧
  fst (registerType mangle true cout Interface "A" (Callable 0)
         (snd (example_run true [ORegistrator A Interface "A"] (init cout []))))
    = Ret tt ∧
  table mangle cout Interface
    (snd (registerType mangle true cout Interface "A" (Callable 0)
            (snd (example_run true [ORegistrator A Interface "A"] (init cout [])))))
    !! "A" = Some (Callable 0) ∧
  ¬ rejects_duplicate mangle true cout Interface "A" (Callable 0)
      (snd (example_run true [ORegistrator A Interface "A"] (init cout []))).
Proof.
  split; [by vm_compute|]. split; [by vm_compute|]. split; [by vm_compute|].
  intros [Hrej _]. apply Hrej. by vm_compute.
Qed.



(** "C", "A" and "B" registered in this order. *)
Local Abbreviation registered_CAB :=
  (snd (example_run false
          [ORegisterType Interface "C" (Callable 0);
           ORegistrator A Interface "A"; ORegistrator B Interface "B"]
          (init cout []))).

Lemma registeredTypes_complete_witness :
  ∃ l, fst (registeredTypes mangle cout Interface registered_CAB) = Ret l ∧
       list_to_set l = dom (table mangle cout Interface registered_CAB) ∧
       NoDup l ∧
       length l = size (table mangle cout Interface registered_CAB).
Proof.
  apply (registeredTypes_complete mangle cout Interface registered_CAB).
  vm_compute. eexists. reflexivity.
Defined.

Example registeredTypes_CAB :
  fst (registeredTypes mangle cout Interface registered_CAB) = Ret ["A"; "B"; "C"].
Proof. by vm_compute. Qed.

(** The state after [auto x = ctm::Factory<Interface>::newInstance("A");]. *)
Local Abbreviation created_A :=
  (snd (example_run false
          [ORegistrator A Interface "A"; ORegistrator B Interface "B";
           ONewInstance Interface "A"]
          (init cout []))).

Lemma TypeIdGetter_typeId_soft_witness :
  TypeIdGetter_typeId mangle cout example_client_typeId example_final_overrider
    Interface None created_A = (Ret "", created_A) ∧
  TypeIdGetter_typeId mangle cout example_client_typeId example_final_overrider
    Interface (Some 0) created_A =
    match example_final_overrider A Interface with
    | None => (Ret "", created_A)
    | Some f => virtual_typeId mangle cout example_client_typeId Interface f created_A
    end ∧
  ∀ T id, example_final_overrider A Interface = Some (ByMixin T) →
          recorded_id mangle cout T Interface created_A = Some id →
          TypeIdGetter_typeId mangle cout example_client_typeId example_final_overrider
            Interface (Some 0) created_A = (Ret id, created_A).
Proof.
  apply (TypeIdGetter_typeId_soft mangle cout example_client_typeId
           example_final_overrider Interface 0 A created_A).
  by vm_compute.
Defined.

Example typeId_of_created_A :
  fst (TypeIdGetter_typeId mangle cout example_client_typeId example_final_overrider
         Interface (Some 0) created_A) = Ret "A" ∧
  fst (TypeIdGetter_typeId mangle cout example_client_typeId example_final_overrider
         (Class "Other") (Some 0) created_A) = Ret "".
Proof. split; by vm_compute. Qed.

Lemma newInstance_unknown_id_witness :
  newInstance mangle cout example_construct example_callable Interface "C" registered =
    (Throw (RuntimeError ("Failed to find type '" +:+ "C" +:+ "' in registry")),
     snd (registry mangle cout Interface registered)) ∧
  client (snd (registry mangle cout Interface registered)) = client registered ∧
  (∀ J, table mangle cout J (snd (registry mangle cout Interface registered))
        = table mangle cout J registered) ∧
  (∀ T J, recorded_id mangle cout T J (snd (registry mangle cout Interface registered))
          = recorded_id mangle cout T J registered) ∧
  (cell_addr mangle cout (Factory Interface) (Registry Interface) registered ≠ None →
   snd (registry mangle cout Interface registered) = registered).
Proof.
  apply (newInstance_unknown_id mangle cout example_construct example_callable
           Interface "C" registered).
  - vm_compute. eexists. reflexivity.
  - by vm_compute.
Defined.

(** At program start the storage is untouched; a failed newInstance leaves
    the storage map allocated and the interface's empty table in a cell. *)
Lemma unknown_id_allocates_on_first_access :
  fst (newInstance mangle cout example_construct example_callable Interface "nonexistent"
         (init cout []))
    = Throw (RuntimeError "Failed to find type 'nonexistent' in registry") ∧
  m_data (init cout []) = None ∧
  cells (init cout []) = [] ∧
  is_Some (m_data (snd (newInstance mangle cout example_construct example_callable
                          Interface "nonexistent" (init cout [])))) ∧
  cells (snd (newInstance mangle cout example_construct example_callable
                Interface "nonexistent" (init cout [])))
    = [RegistryCell Interface ∅] ∧
  snd (newInstance mangle cout example_construct example_callable Interface "nonexistent"
         (init cout [])) ≠ init cout [].
Proof.
  split; [by vm_compute|]. split; [done|]. split; [done|].
  split; [vm_compute; eauto|]. split; [by vm_compute|].
  intros H. apply (f_equal cells) in H. vm_compute in H. discriminate.
Qed.


(** ** The further properties on the example program *)

Lemma isTypeRegistered_agrees_witness :
  ∃ b l,
    isTypeRegistered mangle cout Interface "A" registered
      = (Ret b, snd (registry mangle cout Interface registered)) ∧
    fst (registeredTypes mangle cout Interface registered) = Ret l ∧
    (b = true ↔ "A" ∈ l) ∧
    (b = false ↔
     ∃ what, fst (newInstance mangle cout example_construct example_callable
                    Interface "A" registered) = Throw (RuntimeError what)).
Proof.
  apply (isTypeRegistered_agrees mangle cout example_construct example_callable
           Interface "A" registered).
  vm_compute. eexists. reflexivity.
Defined.

Lemma registerType_then_lookup_witness :
  fst (registerType mangle false cout Interface "C" (Callable 0) registered) = Ret tt ∧
  table mangle cout Interface
    (snd (registerType mangle false cout Interface "C" (Callable 0) registered))
    = <[ "C" := Callable 0 ]> (table mangle cout Interface registered) ∧
  client (snd (registerType mangle false cout Interface "C" (Callable 0) registered))
    = client registered ∧
  fst (isTypeRegistered mangle cout Interface "C"
         (snd (registerType mangle false cout Interface "C" (Callable 0) registered)))
    = Ret true ∧
  newInstance mangle cout example_construct example_callable Interface "C"
    (snd (registerType mangle false cout Interface "C" (Callable 0) registered))
    = invoke cout example_construct example_callable (Callable 0)
        (snd (registerType mangle false cout Interface "C" (Callable 0) registered)).
Proof.
  apply (registerType_then_lookup mangle false cout example_construct example_callable
           Interface "C" (Callable 0) registered).
  - vm_compute. eexists. reflexivity.
  - right. by vm_compute.
Defined.

Lemma registerType_commutes_witness :
  bind cout (registerType mangle false cout Interface "C" (Callable 0))
       (λ _, registerType mangle false cout Interface "D" (Callable 1)) registered
  = bind cout (registerType mangle false cout Interface "D" (Callable 1))
         (λ _, registerType mangle false cout Interface "C" (Callable 0)) registered ∧
  fst (bind cout (registerType mangle false cout Interface "C" (Callable 0))
         (λ _, registerType mangle false cout Interface "D" (Callable 1)) registered)
  = Ret tt.
Proof.
  apply (registerType_commutes mangle false cout Interface
           "C" (Callable 0) "D" (Callable 1) registered).
  - vm_compute. eexists. reflexivity.
  - discriminate.
  - right. by vm_compute.
Defined.

Lemma registration_runs_no_client_code_witness :
  client (snd (step mangle false cout example_construct example_callable
                 example_client_typeId example_final_overrider
                 (ORegistrator A Interface "A") (init cout [])))
  = client (init cout []).
Proof.
  apply (registration_runs_no_client_code mangle false cout example_construct
           example_callable example_client_typeId example_final_overrider
           (ORegistrator A Interface "A") (init cout [])).
  simpl. tauto.
Defined.

Lemma newInstance_constructs_implementation_witness :
  m_data (snd (newInstance mangle cout example_construct example_callable
                 Interface "A" registered)) = m_data registered ∧
  cells (snd (newInstance mangle cout example_construct example_callable
                Interface "A" registered)) = cells registered ∧
  world (client (snd (newInstance mangle cout example_construct example_callable
                        Interface "A" registered)))
    = snd (example_construct A (world (client registered))) ∧
  match fst (example_construct A (world (client registered))) with
  | Returned _ =>
      ∃ a, fst (newInstance mangle cout example_construct example_callable
                  Interface "A" registered) = Ret (Some a) ∧
           objects (client (snd (newInstance mangle cout example_construct
                                   example_callable Interface "A" registered))) !! a
             = Some A
  | Raised e =>
      fst (newInstance mangle cout example_construct example_callable
             Interface "A" registered) = Throw (ClientExn e) ∧
      objects (client (snd (newInstance mangle cout example_construct example_callable
                              Interface "A" registered)))
        = objects (client registered)
  end.
Proof.
  apply (newInstance_constructs_implementation mangle cout example_construct
           example_callable Interface "A" A Interface registered).
  by vm_compute.
Defined.

Lemma registeredTypes_ascending_witness :
  ∃ l, fst (registeredTypes mangle cout Interface registered_CAB) = Ret l ∧
       StronglySorted (λ a b : string, String.leb a b) l.
Proof.
  apply (registeredTypes_ascending mangle cout Interface registered_CAB).
  vm_compute. eexists. reflexivity.
Defined.

Lemma Registrator_duplicate_asserts_witness :
  Registrator mangle false cout B Interface "A" registered = (Abort, registered).
Proof.
  apply (Registrator_duplicate_asserts mangle false cout B Interface "A" registered).
  - reflexivity.
  - vm_compute. eexists. reflexivity.
  - vm_compute. eexists. reflexivity.
Defined.

Lemma staticTypeId_reports_last_Registrator_witness :
  staticTypeId mangle cout A Interface
    (snd (example_run false [ORegistrator B Interface "B"; OStaticTypeId A Interface]
            (snd (Registrator mangle false cout A Interface "A"
                    (snd (example_run false [] (init cout [])))))))
  = (Ret "A",
     snd (example_run false [ORegistrator B Interface "B"; OStaticTypeId A Interface]
            (snd (Registrator mangle false cout A Interface "A"
                    (snd (example_run false [] (init cout []))))))).
Proof.
  apply (staticTypeId_reports_last_Registrator mangle false cout example_construct
           example_callable example_client_typeId example_final_overrider
           mangle_keys_unique A Interface "A" []
           [ORegistrator B Interface "B"; OStaticTypeId A Interface] []).
  - by vm_compute.
  - intros id Hin.
    repeat (apply elem_of_cons in Hin as [Hin|Hin]; [discriminate|]).
    by apply elem_of_nil in Hin.
Defined.

Lemma runs_are_defined_witness :
  fst (example_run false
         [ORegistrator A Interface "A"; ORegistrator B Interface "B";
          ONewInstance Interface "A"; ONewInstance Interface "C";
          OTypeId Interface None] (init cout [])) = Ret tt ∨
  (false = false ∧
   fst (example_run false
          [ORegistrator A Interface "A"; ORegistrator B Interface "B";
           ONewInstance Interface "A"; ONewInstance Interface "C";
           OTypeId Interface None] (init cout [])) = Abort).
Proof.
  apply (runs_are_defined mangle false cout example_construct example_callable
           example_client_typeId example_final_overrider mangle_keys_unique
           [ORegistrator A Interface "A"; ORegistrator B Interface "B";
            ONewInstance Interface "A"; ONewInstance Interface "C";
            OTypeId Interface None] []).
  intros op Hin.
  repeat (apply elem_of_cons in Hin as [->|Hin]; [simpl; tauto|]).
  by apply elem_of_nil in Hin.
Defined.

Lemma ImplementationRegistrator_registers_trait_id_witness :
  staticTypeId mangle cout A Interface
    (snd (ImplementationRegistrator mangle false cout example_traits A A Interface
            (snd (example_run false [] (init cout [])))))
    = (Ret (example_traits A),
       snd (ImplementationRegistrator mangle false cout example_traits A A Interface
              (snd (example_run false [] (init cout []))))) ∧
  fst (isTypeRegistered mangle cout Interface (example_traits A)
         (snd (ImplementationRegistrator mangle false cout example_traits A A Interface
                 (snd (example_run false [] (init cout []))))))
    = Ret true ∧
  newInstance mangle cout example_construct example_callable Interface (example_traits A)
    (snd (ImplementationRegistrator mangle false cout example_traits A A Interface
            (snd (example_run false [] (init cout [])))))
    = FactoryMixin_newInstance cout example_construct A Interface
        (snd (ImplementationRegistrator mangle false cout example_traits A A Interface
                (snd (example_run false [] (init cout []))))).
Proof.
  apply (ImplementationRegistrator_registers_trait_id mangle false cout
           example_construct example_callable example_client_typeId
           example_final_overrider example_traits mangle_keys_unique
           A A Interface [] []).
  by vm_compute.
Defined.

Lemma Registrator_touches_own_cells_witness :
  (∀ J, J ≠ Interface →
        table mangle cout J
          (snd (Registrator mangle false cout A Interface "A"
                  (snd (example_run false [ORegistrator B Interface "B"] (init cout [])))))
        = table mangle cout J
            (snd (example_run false [ORegistrator B Interface "B"] (init cout [])))) ∧
  (∀ T' J, (T', J) ≠ (A, Interface) →
           recorded_id mangle cout T' J
             (snd (Registrator mangle false cout A Interface "A"
                     (snd (example_run false [ORegistrator B Interface "B"]
                             (init cout [])))))
           = recorded_id mangle cout T' J
               (snd (example_run false [ORegistrator B Interface "B"] (init cout [])))).
Proof.
  apply (Registrator_touches_own_cells mangle false cout example_construct
           example_callable example_client_typeId example_final_overrider
           mangle_keys_unique A Interface "A" [ORegistrator B Interface "B"] []).
Defined.

Lemma Registrator_registers_witness :
  fst (Registrator mangle false cout A Interface "A"
         (snd (example_run false [ORegistrator B Interface "B"] (init cout []))))
    = Ret tt ∧
  fst (isTypeRegistered mangle cout Interface "A"
         (snd (Registrator mangle false cout A Interface "A"
                 (snd (example_run false [ORegistrator B Interface "B"] (init cout []))))))
    = Ret true ∧
  staticTypeId mangle cout A Interface
    (snd (Registrator mangle false cout A Interface "A"
            (snd (example_run false [ORegistrator B Interface "B"] (init cout [])))))
    = (Ret "A",
       snd (Registrator mangle false cout A Interface "A"
              (snd (example_run false [ORegistrator B Interface "B"] (init cout []))))) ∧
  newInstance mangle cout example_construct example_callable Interface "A"
    (snd (Registrator mangle false cout A Interface "A"
            (snd (example_run false [ORegistrator B Interface "B"] (init cout [])))))
    = FactoryMixin_newInstance cout example_construct A Interface
        (snd (Registrator mangle false cout A Interface "A"
                (snd (example_run false [ORegistrator B Interface "B"] (init cout []))))).
Proof.
  apply (Registrator_registers mangle false cout example_construct example_callable
           example_client_typeId example_final_overrider mangle_keys_unique
           A Interface "A" [ORegistrator B Interface "B"] []).
  right. by vm_compute.
Defined.

Lemma second_implementation_takes_identifier_witness :
  let s1 := snd (Registrator mangle true cout A Interface "X"
                   (snd (example_run true [] (init cout [])))) in
  let s2 := snd (Registrator mangle true cout B Interface "X" s1) in
  fst (Registrator mangle true cout A Interface "X"
         (snd (example_run true [] (init cout [])))) = Ret tt ∧
  fst (Registrator mangle true cout B Interface "X" s1) = Ret tt ∧
  newInstance mangle cout example_construct example_callable Interface "X" s2
    = FactoryMixin_newInstance cout example_construct B Interface s2 ∧
  staticTypeId mangle cout A Interface s2 = (Ret "X", s2) ∧
  staticTypeId mangle cout B Interface s2 = (Ret "X", s2).
Proof.
  apply (second_implementation_takes_identifier mangle true cout example_construct
           example_callable example_client_typeId example_final_overrider
           mangle_keys_unique A B Interface "X" [] []).
  - reflexivity.
  - discriminate.
Defined.

(** ** Two registries: the example naming, and a naming that collides *)

Lemma registries_under_different_keys_are_isolated_witness :
  let s := snd (example_run false
                  [OIsTypeRegistered Interface "A"; OIsTypeRegistered (Class "Other") "A"]
                  (init cout [])) in
  let s1 := snd (registerType mangle false cout Interface "A"
                   (MixinNewInstance A Interface) s) in
  let s2 := snd (registerType mangle false cout (Class "Other") "A" (Callable 0) s1) in
  fst (registerType mangle false cout (Class "Other") "A" (Callable 0) s1) = Ret tt ∧
  (∃ p q, cell_addr mangle cout (Factory Interface) (Registry Interface) s2 = Some p ∧
          cell_addr mangle cout (Factory (Class "Other")) (Registry (Class "Other")) s2
            = Some q ∧ p ≠ q) ∧
  table mangle cout Interface s1
    = <[ "A" := MixinNewInstance A Interface ]> (table mangle cout Interface s) ∧
  table mangle cout (Class "Other") s1 = table mangle cout (Class "Other") s ∧
  table mangle cout Interface s2
    = <[ "A" := MixinNewInstance A Interface ]> (table mangle cout Interface s) ∧
  table mangle cout (Class "Other") s2
    = <[ "A" := Callable 0 ]> (table mangle cout (Class "Other") s) ∧
  newInstance mangle cout example_construct example_callable Interface "A" s2
    = invoke cout example_construct example_callable (MixinNewInstance A Interface) s2 ∧
  newInstance mangle cout example_construct example_callable (Class "Other") "A" s2
    = invoke cout example_construct example_callable (Callable 0) s2.
Proof.
  apply (registries_under_different_keys_are_isolated mangle false cout
           example_construct example_callable example_client_typeId
           example_final_overrider
           Interface (Class "Other") "A" (MixinNewInstance A Interface) (Callable 0)
           [OIsTypeRegistered Interface "A"; OIsTypeRegistered (Class "Other") "A"] []).
  - by vm_compute.
  - by vm_compute.
  - vm_compute. eexists. reflexivity.
  - by vm_compute.
Defined.

(** Two interfaces, both called [I], in the anonymous namespaces of a.cpp and
    of b.cpp. *)
Local Abbreviation I_of_a := (Class "I of a.cpp").
Local Abbreviation I_of_b := (Class "I of b.cpp").

(** The two are different types with one storage key.  At program start "X"
    registers for the first; the registry of the second is then the very cell
    of the first, at address 0, and registering "X" for the second uses that
    cell at a type it was not created with. *)
Lemma equally_named_interfaces_share_a_cell :
  I_of_a ≠ I_of_b ∧
  storage_key anonymous_names (Factory I_of_a) (Registry I_of_a)
    = storage_key anonymous_names (Factory I_of_b) (Registry I_of_b) ∧
  registry_ok anonymous_names cout I_of_b (init cout []) ∧
  table anonymous_names cout I_of_b (init cout []) !! "X" = None ∧
  fst (registerType anonymous_names false cout I_of_a "X" (Callable 0) (init cout []))
    = Ret tt ∧
  fst (registerType anonymous_names false cout I_of_b "X" (Callable 1)
         (snd (registerType anonymous_names false cout I_of_a "X" (Callable 0)
                 (init cout []))))
    = Undefined ∧
  cell_addr anonymous_names cout (Factory I_of_a) (Registry I_of_a)
    (snd (registerType anonymous_names false cout I_of_b "X" (Callable 1)
            (snd (registerType anonymous_names false cout I_of_a "X" (Callable 0)
                    (init cout []))))) = Some 0 ∧
  cell_addr anonymous_names cout (Factory I_of_b) (Registry I_of_b)
    (snd (registerType anonymous_names false cout I_of_b "X" (Callable 1)
            (snd (registerType anonymous_names false cout I_of_a "X" (Callable 0)
                    (init cout []))))) = Some 0 ∧
  length (cells
    (snd (registerType anonymous_names false cout I_of_b "X" (Callable 1)
            (snd (registerType anonymous_names false cout I_of_a "X" (Callable 0)
                    (init cout [])))))) = 1.
Proof.
  split; [discriminate|]. split; [reflexivity|]. split; [by vm_compute|].
  split; [by vm_compute|]. split; [by vm_compute|].
  split; [by vm_compute|]. split; [by vm_compute|]. split; by vm_compute.
Qed.
